(** * docparser: field extraction from semi-structured text

    A shallow embedding of the Go package [docparser] (RealGeeks/docparser)
    and the properties of its pattern engine: Field Maps and their
    accessors, the single-regex matcher [PatternGroup], the list matcher
    [PatternList], the composite [Document] and the fallback search of
    [Documents].

    The package [regexp] and the verb [%q] of [fmt] belong to the Go
    distribution, not to this package: a compiled regular expression is a
    record of the three methods the package calls, and the quoting function
    is a variable of the development. *)

From stdpp Require Import gmap strings list fin_maps.
From Stdlib Require Import Ascii DecimalString.

Set Warnings "-register-all".
Set Default Proof Using "Type".

(** ** Results of code that may panic *)

(** A Go expression either yields a value or panics (an index out of
    range, a failed type assertion [x.(T)] without the [ok] form). *)
Inductive outcome (A : Type) : Type :=
| Ret (a : A)
| Panic.
Arguments Ret {A} a.
Arguments Panic {A}.

#[global] Instance outcome_ret : MRet outcome := fun A a => Ret a.
#[global] Instance outcome_bind : MBind outcome :=
  fun A B f m => match m with Ret a => f a | Panic => Panic end.

(** [l[i]] on a slice: panics out of range (a nil slice has length 0). *)
Definition index {A : Type} (l : list A) (i : nat) : outcome A :=
  match l !! i with
  | Some x => Ret x
  | None => Panic
  end.

(** ** Field Maps: [type Fields map[string]interface{}] *)

(** The dynamic values the package stores behind [interface{}]: a string, a
    slice of Field Maps, and [VOther] for a value of any other dynamic type
    (a caller, or a [Clean] function, may store one). *)
Inductive value : Type :=
| VString (s : string)
| VFieldsSlice (items : list (gmap string value))
| VOther (tag : nat).

Abbreviation Fields := (gmap string value).

(** [func (f *Fields) Update(other Fields)]: every entry [k, v] of [other]
    is stored into the receiver, [f[k] = v]. The receiver is mutated in
    place; the new contents are returned. *)
Definition Update (f other : Fields) : Fields :=
  map_fold (fun k v acc => <[k := v]> acc) f other.

(** [func (f *Fields) GetString(key string) (value string)] *)
Definition GetString (f : Fields) (key : string) : string :=
  match f !! key with
  | None => ""
  | Some v =>
      match v with
      | VString vs => vs
      | _ => ""
      end
  end.

(** The inner loop of [GetMapSlice]:
    [for key, val := range item { vs[i][key] = val.(string) }].
    The assertion [val.(string)] has no [ok] form: it panics on a value
    that is not a string. *)
Definition item_strings (item : Fields) : outcome (gmap string string) :=
  map_fold
    (fun key val acc =>
       vsi ← acc;
       match val with
       | VString s => Ret (<[key := s]> vsi)
       | _ => Panic
       end)
    (Ret ∅) item.

(** The outer loop of [GetMapSlice]: [for i, item := range vf { ... }]. *)
Fixpoint items_strings (vf : list Fields) : outcome (list (gmap string string)) :=
  match vf with
  | [] => Ret []
  | item :: rest =>
      vsi ← item_strings item;
      vs ← items_strings rest;
      Ret (vsi :: vs)
  end.

(** [func (f *Fields) GetMapSlice(key string) []map[string]string] *)
Definition GetMapSlice (f : Fields) (key : string) : outcome (list (gmap string string)) :=
  match f !! key with
  | None => Ret []
  | Some v =>
      match v with
      | VFieldsSlice vf => items_strings vf
      | _ => Ret []
      end
  end.

(** ** Errors *)

(** The values of the interface [error] that the package builds:
    [&NoMatch{Name, Content}], the result of [fmt.Errorf] (a message) and
    [*ErrorList]. *)
Inductive error : Type :=
| NoMatch (Name Content : string)
| errorString (s : string)
| ErrorList (el : list error).

(** [strconv.Itoa] on a non-negative index, the verb [%d]. *)
Definition itoa (n : nat) : string := NilZero.string_of_uint (Nat.to_uint n).

(** [strings.Join(s, sep)] *)
Definition Join (s : list string) (sep : string) : string := String.concat sep s.

(** ** Compiled regular expressions: [*regexp.Regexp] *)

(** The methods of [*regexp.Regexp] the package calls.
    [SubexpNames()] lists the names of the capture groups, the element 0
    standing for the whole expression and an unnamed group having the empty
    name; [FindStringSubmatch(s)] is [nil] ([None]) when there is no match;
    [Split] is [Split(s, -1)]. *)
Record Regexp : Type := {
  SubexpNames : list string;
  FindStringSubmatch : string -> option (list string);
  Split : string -> list string;
}.

(** [re.MatchString(s)] reports whether [s] contains a match, that is
    whether [re.FindStringSubmatch(s)] is not [nil]. *)
Definition MatchString (re : Regexp) (s : string) : bool :=
  match FindStringSubmatch re s with
  | Some _ => true
  | None => false
  end.

(** The slice [re.FindStringSubmatch(s)], [nil] being the empty slice. *)
Definition submatches (re : Regexp) (s : string) : list string :=
  match FindStringSubmatch re s with
  | Some m => m
  | None => []
  end.

(** What the package [regexp] guarantees of a compiled expression: the
    element 0 of the names is the empty string, and a match has one submatch for the
    whole expression and one for each capture group. *)
Definition Regexp_wf (re : Regexp) : Prop :=
  (exists names, SubexpNames re = "" :: names) /\
  forall s m, FindStringSubmatch re s = Some m -> length m = length (SubexpNames re).

(** The loop of [regexGroups]:
    [for i, groupName := range re.SubexpNames() {
       if i == 0 { continue }; fields[groupName] = matches[i] }] *)
Fixpoint regexGroups_loop (matches names : list string) (i : nat) (fields : Fields)
  : outcome Fields :=
  match names with
  | [] => Ret fields
  | groupName :: rest =>
      if Nat.eqb i 0 then regexGroups_loop matches rest (S i) fields
      else
        m ← index matches i;
        regexGroups_loop matches rest (S i) (<[groupName := VString m]> fields)
  end.

(** [func regexGroups(re *regexp.Regexp, content string) (fields Fields, ok bool)] *)
Definition regexGroups (re : Regexp) (content : string) : outcome (Fields * bool) :=
  if negb (MatchString re content) then Ret (∅, false)
  else
    fields ← regexGroups_loop (submatches re content) (SubexpNames re) 0 ∅;
    Ret (fields, true).

(** ** Code that calls functions supplied by the caller *)

(** A [Clean] function and a [Search] method of a [Pattern] are Go
    functions of the caller: they may read and change whatever they
    captured, and they may panic. [W] is that state of the caller; a
    computation takes the state it starts in and gives its outcome and the
    state it leaves. *)
Definition M (W A : Type) : Type := W -> outcome A * W.

#[global] Instance M_ret {W} : MRet (M W) := fun A a w => (Ret a, w).
#[global] Instance M_bind {W} : MBind (M W) :=
  fun A B f m w =>
    match m w with
    | (Ret a, w') => f a w'
    | (Panic, w') => (Panic, w')
    end.

(** A computation of the package itself, which touches no state. *)
Definition lift {W A : Type} (o : outcome A) : M W A := fun w => (o, w).

Section Patterns.
Context {W : Type}.

(** [strconv.Quote], the verb [%q] of [fmt.Sprintf]. *)
Variable Quote : string -> string.

(** [func (e *NoMatch) Error() string], [func (el *ErrorList) Error() string]
    and the message of a [fmt.Errorf] error. *)
Fixpoint Error (e : error) : string :=
  match e with
  | NoMatch Name _ => "No match for " +:+ Quote Name
  | errorString s => s
  | ErrorList el => Join (map Error el) "; "
  end.

(** [type Pattern interface { Search(content string) (Fields, error) }];
    the error is [nil] ([None]) on success. *)
Record Pattern : Type := {
  Search : string -> M W (Fields * option error);
}.

(** [type PatternGroup struct]; [Clean] is [nil] ([None]) when absent, and
    [Regex] is a compiled expression, not [nil]. *)
Record PatternGroup : Type := {
  pg_Name : string;
  pg_Regex : Regexp;
  pg_Clean : option (Fields -> M W Fields);
  pg_Optional : bool;
}.

(** [if clean != nil { fields = clean(fields) }] *)
Definition apply_clean (clean : option (Fields -> M W Fields)) (fields : Fields)
  : M W Fields :=
  match clean with
  | Some c => c fields
  | None => mret fields
  end.

(** [func (pg *PatternGroup) Search(content string) (Fields, error)] *)
Definition PatternGroup_Search (pg : PatternGroup) (content : string)
  : M W (Fields * option error) :=
  '(fields, ok) ← lift (regexGroups (pg_Regex pg) content);
  if negb ok then
    if pg_Optional pg then mret (∅, None)
    else mret (∅, Some (NoMatch (pg_Name pg) content))
  else
    fields ← apply_clean (pg_Clean pg) fields;
    mret (fields, None).

(** [type PatternList struct] *)
Record PatternList : Type := {
  pl_Name : string;
  pl_ListRegex : Regexp;
  pl_SplitRegex : Regexp;
  pl_ItemRegex : Regexp;
  pl_CleanItem : option (Fields -> M W Fields);
  pl_Optional : bool;
}.

(** The loop of [PatternList.Search] over [itemsTexts], from the index
    [i] on, [items] being the items appended so far. It yields the items,
    or the error of the item that does not match. *)
Fixpoint PatternList_items (pl : PatternList) (itemsTexts : list string) (i : nat)
    (items : list Fields) : M W (list Fields + error) :=
  match itemsTexts with
  | [] => mret (inl items)
  | itemText :: rest =>
      if String.eqb itemText "" then PatternList_items pl rest (S i) items
      else
        '(fields, ok) ← lift (regexGroups (pl_ItemRegex pl) itemText);
        if negb ok then
          mret (inr (NoMatch (pl_Name pl +:+ " - item " +:+ itoa i) itemText))
        else
          fields ← apply_clean (pl_CleanItem pl) fields;
          PatternList_items pl rest (S i) (items ++ [fields])
  end.

(** [func (pl *PatternList) Search(content string) (Fields, error)] *)
Definition PatternList_Search (pl : PatternList) (content : string)
  : M W (Fields * option error) :=
  if negb (MatchString (pl_ListRegex pl) content) then
    if pl_Optional pl then mret (∅, None)
    else mret (∅, Some (NoMatch (pl_Name pl +:+ " - list regex") content))
  else
    listName ← lift (index (SubexpNames (pl_ListRegex pl)) 1);
    listText ← lift (index (submatches (pl_ListRegex pl) content) 1);
    let itemsTexts := Split (pl_SplitRegex pl) listText in
    r ← PatternList_items pl itemsTexts 0 [];
    match r with
    | inr err => mret (∅, Some err)
    | inl items => mret ({[ listName := VFieldsSlice items ]}, None)
    end.

(** [type Document []Pattern] *)
Definition Document : Type := list Pattern.

(** The loop of [Document.Search], [f] being the fields merged so far. *)
Fixpoint Document_loop (d : list Pattern) (content : string) (f : Fields)
  : M W (Fields * option error) :=
  match d with
  | [] => mret (f, None)
  | p :: rest =>
      '(pf, err) ← Search p content;
      match err with
      | Some e => mret (∅, Some e)
      | None => Document_loop rest content (Update f pf)
      end
  end.

(** [func (d *Document) Search(content string) (Fields, error)] *)
Definition Document_Search (d : Document) (content : string)
  : M W (Fields * option error) :=
  Document_loop d content ∅.

(** [PatternGroup], [PatternList] and [Document] implement [Pattern]. *)
Definition GroupPattern (pg : PatternGroup) : Pattern :=
  {| Search := PatternGroup_Search pg |}.
Definition ListPattern (pl : PatternList) : Pattern :=
  {| Search := PatternList_Search pl |}.
Definition DocumentPattern (d : Document) : Pattern :=
  {| Search := Document_Search d |}.

(** [type Documents []*Document]; the pointers are not [nil]. *)
Definition Documents : Type := list Document.

(** The loop of [Documents.Search] from the index [i] on, [errList] being
    the errors added so far. *)
Fixpoint Documents_loop (ds : list Document) (content : string) (i : nat)
    (errList : list error) : M W (Fields * option error) :=
  match ds with
  | [] => mret (∅, Some (ErrorList errList))
  | doc :: rest =>
      '(fields, err) ← Document_Search doc content;
      match err with
      | None => mret (fields, None)
      | Some e =>
          Documents_loop rest content (S i)
            (errList ++ [errorString ("Document " +:+ itoa i +:+ ": " +:+ Error e)])
      end
  end.

(** [func (ds *Documents) Search(content string) (Fields, error)] *)
Definition Documents_Search (ds : Documents) (content : string)
  : M W (Fields * option error) :=
  Documents_loop ds content 0 [].

End Patterns.

Arguments Pattern W : clear implicits.
Arguments PatternGroup W : clear implicits.
Arguments PatternList W : clear implicits.
Arguments Document W : clear implicits.
Arguments Documents W : clear implicits.

(** ** The file [src/docparser.go] *)

(** The second copy of the package has [GetFieldsSlice] for [GetMapSlice],
    another message for [NoMatch], and a [PatternList] with neither
    [CleanItem] nor [Optional]; it calls no function of the caller. Its
    [Update], [GetString], [regexGroups], [PatternGroup] and [Document] are
    those above. *)
Module DocparserGo.

(** [func (f *Fields) GetFieldsSlice(key string) []Fields] *)
Definition GetFieldsSlice (f : Fields) (key : string) : list Fields :=
  match f !! key with
  | None => []
  | Some v =>
      match v with
      | VFieldsSlice vs => vs
      | _ => []
      end
  end.

(** [func (e *NoMatch) Error() string] *)
Definition NoMatch_Error (Quote : string -> string) (Name Content : string) : string :=
  "no match " +:+ Quote Name +:+ " against " +:+ Quote Content.

(** [type PatternList struct] *)
Record PatternList : Type := {
  pl_Name : string;
  pl_ListRegex : Regexp;
  pl_SplitRegex : Regexp;
  pl_ItemRegex : Regexp;
}.

(** The loop of [PatternList.Search]. *)
Fixpoint PatternList_items (pl : PatternList) (itemsTexts : list string) (i : nat)
    (items : list Fields) : outcome (list Fields + error) :=
  match itemsTexts with
  | [] => Ret (inl items)
  | itemText :: rest =>
      if String.eqb itemText "" then PatternList_items pl rest (S i) items
      else
        '(fields, ok) ← regexGroups (pl_ItemRegex pl) itemText;
        if negb ok then
          Ret (inr (NoMatch (pl_Name pl +:+ " - item " +:+ itoa i) itemText))
        else PatternList_items pl rest (S i) (items ++ [fields])
  end.

(** [func (pl *PatternList) Search(content string) (Fields, error)] *)
Definition PatternList_Search (pl : PatternList) (content : string)
  : outcome (Fields * option error) :=
  if negb (MatchString (pl_ListRegex pl) content) then
    Ret (∅, Some (NoMatch (pl_Name pl +:+ " - list regex") content))
  else
    listName ← index (SubexpNames (pl_ListRegex pl)) 1;
    listText ← index (submatches (pl_ListRegex pl) content) 1;
    let itemsTexts := Split (pl_SplitRegex pl) listText in
    r ← PatternList_items pl itemsTexts 0 [];
    match r with
    | inr err => Ret (∅, Some err)
    | inl items => Ret ({[ listName := VFieldsSlice items ]}, None)
    end.

End DocparserGo.

(** ** Runs of the loops *)

(** The calls a loop makes, written down apart from what the loop computes
    with their results: each call starts in the state the call before it
    left. *)
Section Runs.
Context {W : Type}.

(** [children_run d content w fs r w']: from the state [w] the children of
    [d] are searched in their order until one fails; [fs] are the fields of
    those that succeeded before, [r] is the error of the one that failed
    ([None] when none did) and [w'] the state after the last call. *)
Inductive children_run :
  list (Pattern W) -> string -> W -> list Fields -> option error -> W -> Prop :=
| children_done content w :
    children_run [] content w [] None w
| children_ok p rest content w pf w1 fs r w2 :
    Search p content w = (Ret (pf, None), w1) ->
    children_run rest content w1 fs r w2 ->
    children_run (p :: rest) content w (pf :: fs) r w2
| children_fail p rest content w pf e w1 :
    Search p content w = (Ret (pf, Some e), w1) ->
    children_run (p :: rest) content w [] (Some e) w1.

(** [documents_run ds content w es r w']: from the state [w] the
    documents are searched in their order until one succeeds; [es] are the
    errors of those that failed before, [r] the fields of the one that
    succeeded ([None] when none did). *)
Inductive documents_run :
  list (Document W) -> string -> W -> list error -> option Fields -> W -> Prop :=
| documents_done content w :
    documents_run [] content w [] None w
| documents_fail doc rest content w f e w1 es r w2 :
    Document_Search doc content w = (Ret (f, Some e), w1) ->
    documents_run rest content w1 es r w2 ->
    documents_run (doc :: rest) content w (e :: es) r w2
| documents_ok doc rest content w f w1 :
    Document_Search doc content w = (Ret (f, None), w1) ->
    documents_run (doc :: rest) content w [] (Some f) w1.

(** [cleans_run clean gs w fs w']: from the state [w] the fields [gs] are
    passed through [clean], when there is one, in their order; [fs] are
    the fields it returns. *)
Inductive cleans_run (clean : option (Fields -> M W Fields)) :
  list Fields -> W -> list Fields -> W -> Prop :=
| cleans_done w :
    cleans_run clean [] w [] w
| cleans_step g gs w f w1 fs w2 :
    apply_clean clean g w = (Ret f, w1) ->
    cleans_run clean gs w1 fs w2 ->
    cleans_run clean (g :: gs) w (f :: fs) w2.

(** A function of the caller is deterministic when its outcome does not
    depend on the state it is called in. *)
Definition deterministic (clean : option (Fields -> M W Fields)) : Prop :=
  match clean with
  | Some c => forall f w w', (c f w).1 = (c f w').1
  | None => True
  end.

End Runs.

(** The value of the key [k] in the last of the maps [fs] that has it. *)
Fixpoint last_value (k : string) (fs : list Fields) : option value :=
  match fs with
  | [] => None
  | f :: rest =>
      match last_value k rest with
      | Some v => Some v
      | None => f !! k
      end
  end.

(** The texts that the loop of [PatternList.Search] does not skip. *)
Definition nonempty (texts : list string) : list string :=
  filter (fun t => t <> "") texts.

(** The messages [Documents.Search] adds for the failures [es], the first
    of them at the index [i]. *)
Fixpoint messages (Quote : string -> string) (i : nat) (es : list error) : list string :=
  match es with
  | [] => []
  | e :: rest =>
      ("Document " +:+ itoa i +:+ ": " +:+ Error Quote e) :: messages Quote (S i) rest
  end.

(** The fields [regexGroups] stores for the capture groups [names] with the
    submatches [ms], in the order of the groups. *)
Definition group_fields (names ms : list string) : Fields :=
  foldl (fun acc nm => <[nm.1 := VString nm.2]> acc) ∅ (zip names ms).

(** The fields [regexGroups] stores for a text [t] that [re] matches. *)
Definition item_fields (re : Regexp) (t : string) : Fields :=
  group_fields (drop 1 (SubexpNames re)) (drop 1 (submatches re t)).

(** ** Some compiled expressions *)

(** The line feed. *)
Definition LF : string := String "010"%char "".

(** The text after the first occurrence of [pat] in [s]. *)
Fixpoint after_first (pat s : string) : option string :=
  if String.prefix pat s then Some (String.substring (String.length pat) (String.length s) s)
  else
    match s with
    | EmptyString => None
    | String _ s' => after_first pat s'
    end.

(** The text before the first line feed of [s], when there is a line feed. *)
Fixpoint until_LF (s : string) : option string :=
  match s with
  | EmptyString => None
  | String c s' =>
      if Ascii.eqb c "010"%char then Some ""
      else
        match until_LF s' with
        | Some t => Some (String c t)
        | None => None
        end
  end.

(** The texts between the line feeds of [s]. *)
Fixpoint split_LF (s : string) : list string :=
  match s with
  | EmptyString => [""]
  | String c s' =>
      if Ascii.eqb c "010"%char then "" :: split_LF s'
      else
        match split_LF s' with
        | t :: ts => String c t :: ts
        | [] => [String c ""]
        end
  end.

(** The expression of one line feed, [\n], which splits a text into its
    lines. *)
Definition re_LF : Regexp :=
  {| SubexpNames := [""];
     FindStringSubmatch s :=
       match after_first LF s with
       | Some _ => Some [LF]
       | None => None
       end;
     Split := split_LF |}.

(** The expressions below are used to match, never to split: their [Split]
    is not the one of [regexp], and leaves a text whole. *)

(** An expression without capture group, the literal [pat]. *)
Definition re_literal (pat : string) : Regexp :=
  {| SubexpNames := [""];
     FindStringSubmatch s :=
       match after_first pat s with
       | Some _ => Some [pat]
       | None => None
       end;
     Split s := [s] |}.

(** The expression, under the flag [s], of the literal [pat] followed by
    the group [name] holding [.*]: the literal, then the rest of the text
    as the group [name]. *)
Definition re_rest (pat name : string) : Regexp :=
  {| SubexpNames := [""; name];
     FindStringSubmatch s :=
       match after_first pat s with
       | Some r => Some [pat +:+ r; r]
       | None => None
       end;
     Split s := [s] |}.

(** The expression of [^], the literal [pat], the group [name] holding
    [.*], and [$]: the whole text is [pat], then a rest without line feed
    as the group [name]. *)
Definition re_line (pat name : string) : Regexp :=
  {| SubexpNames := [""; name];
     FindStringSubmatch s :=
       if String.prefix pat s then
         let r := String.substring (String.length pat) (String.length s) s in
         match until_LF r with
         | Some _ => None
         | None => Some [s; r]
         end
       else None;
     Split s := [s] |}.

(** The expression of the literal [pat], the group [name] holding [.*],
    and [\n]: the literal, then the rest of the line as the group [name],
    then the line feed. *)
Definition re_field (pat name : string) : Regexp :=
  {| SubexpNames := [""; name];
     FindStringSubmatch s :=
       match after_first pat s with
       | Some r =>
           match until_LF r with
           | Some v => Some [pat +:+ v +:+ LF; v]
           | None => None
           end
       | None => None
       end;
     Split s := [s] |}.

(** The expression [(a)(?P<x>b)]: an unnamed group, then a named one. *)
Definition re_ab : Regexp :=
  {| SubexpNames := [""; ""; "x"];
     FindStringSubmatch s :=
       match after_first "ab" s with
       | Some _ => Some ["ab"; "a"; "b"]
       | None => None
       end;
     Split s := [s] |}.

(** The expression, under the flag [s], of the literal [pat], the unnamed
    group [(\n)] and the group [name] holding [.*]: the literal, a line
    feed as an unnamed group, then the rest of the text as the group
    [name]. *)
Definition re_rest2 (pat name : string) : Regexp :=
  {| SubexpNames := [""; ""; name];
     FindStringSubmatch s :=
       match after_first (pat +:+ LF) s with
       | Some r => Some [pat +:+ LF +:+ r; LF; r]
       | None => None
       end;
     Split s := [s] |}.

(** ** Some patterns *)

(** The double quote. *)
Definition DQ : string := String "034"%char "".

(** What [strconv.Quote] gives for a text of printable ASCII characters
    that has neither a double quote nor a backslash. *)
Definition quote_plain (s : string) : string := DQ +:+ s +:+ DQ.

(** A [Clean] function like the one of [ExamplePatternGroup_clean], which
    stores the field [name] with every [%20] of it decoded. *)
Fixpoint unescape20 (s : string) : string :=
  match s with
  | String "%" (String "2" (String "0" rest)) => String " " (unescape20 rest)
  | String c rest => String c (unescape20 rest)
  | EmptyString => EmptyString
  end.

Definition clean_name {W : Type} (f : Fields) : M W Fields :=
  mret (<[ "name" := VString (unescape20 (GetString f "name")) ]> f).

(** A [Clean] function that counts its calls in a variable it captured, and
    stores the count in the fields. *)
Definition clean_count (f : Fields) : M nat Fields :=
  fun n => (Ret (<[ "call" := VOther n ]> f), S n).

(** A group for a line [head], then a value; the value is the field [key]. *)
Definition group_line {W : Type} (Name head key : string)
    (clean : option (Fields -> M W Fields)) (optional : bool) : PatternGroup W :=
  {| pg_Name := Name;
     pg_Regex := re_field head key;
     pg_Clean := clean;
     pg_Optional := optional |}.

(** A group whose regex has an unnamed capture group. *)
Definition group_ab : PatternGroup unit :=
  {| pg_Name := "AB"; pg_Regex := re_ab; pg_Clean := None; pg_Optional := false |}.

(** A list like the one of [ExamplePatternList]: the items are the lines
    after the line [head], and an item is [- ], then the field [v]. *)
Definition list_lines {W : Type} (Name : string) (ListRegex : Regexp)
    (clean : option (Fields -> M W Fields)) (optional : bool) : PatternList W :=
  {| pl_Name := Name;
     pl_ListRegex := ListRegex;
     pl_SplitRegex := re_LF;
     pl_ItemRegex := re_line "- " "v";
     pl_CleanItem := clean;
     pl_Optional := optional |}.

(** Two documents that both store the field [name]. *)
Definition documents_name : Documents unit :=
  [ [GroupPattern (group_line "Name" "Name: " "name" None false);
     GroupPattern (group_line "Email" "Email: " "email" None false)];
    [GroupPattern (group_line "Name" "My Name: " "name" None false);
     GroupPattern (group_line "Email" "My Email: " "email" None false)] ].

(** A document whose two groups store the same field. *)
Definition document_names : Document unit :=
  [GroupPattern (group_line "Name" "Name: " "name" None false);
   GroupPattern (group_line "Other name" "My Name: " "name" None false)].

(** A pattern of the caller that appends its name to a log of the calls
    and returns [r]. *)
Definition pattern_logging (Name : string) (r : Fields * option error)
  : Pattern (list string) :=
  {| Search _ := fun log => (Ret r, log ++ [Name]) |}.

(** A list whose list regex has one capture group, the named one. *)
Definition list_items {W : Type} (optional : bool) : PatternList W :=
  list_lines "Items" (re_rest ("Items:" +:+ LF) "items") None optional.

(** A list whose list regex has an unnamed group before the named one. *)
Definition list_items2 : PatternList unit :=
  list_lines "Items" (re_rest2 "Items:" "items") None false.

(** Lists whose list regex has no capture group. *)
Definition list_no_group : PatternList unit :=
  list_lines "Items" (re_literal "Items:") None false.

Definition list_no_group_go : DocparserGo.PatternList :=
  {| DocparserGo.pl_Name := "Items";
     DocparserGo.pl_ListRegex := re_literal "Items:";
     DocparserGo.pl_SplitRegex := re_LF;
     DocparserGo.pl_ItemRegex := re_line "- " "v" |}.

(** Some contents. *)
Definition content_names : string := "Name: bob" +:+ LF +:+ "My Name: josh" +:+ LF.
Definition content_no_match : string := "won't match".
Definition content_escaped : string := "Name Igor%20Sobreira" +:+ LF.
Definition content_plain : string := "Name Igor Sobreira" +:+ LF.
Definition content_items : string :=
  "Items:" +:+ LF +:+ "- a" +:+ LF +:+ "- b" +:+ LF +:+ "- c" +:+ LF.
Definition content_gap : string :=
  "Items:" +:+ LF +:+ "- a" +:+ LF +:+ LF +:+ "bad" +:+ LF +:+ "- c" +:+ LF.
Definition content_bad : string := "Items:" +:+ LF +:+ LF +:+ "bad".

(** Field Maps with a slice whose item holds a value that is not a string:
    a slice, and a value of another type. *)
Definition item_nested : Fields := {[ "address" := VFieldsSlice [] ]}.
Definition fields_nested : Fields := {[ "properties" := VFieldsSlice [item_nested] ]}.
Definition item_named : gmap string string := {[ "name" := "Go" ]}.
Definition fields_named : Fields :=
  {[ "languages" := VFieldsSlice [ {[ "name" := VString "Go" ]} ] ]}.
Definition item_tagged : Fields := <[ "tag" := VOther 0 ]> {[ "name" := VString "Go" ]}.
Definition fields_tagged : Fields := {[ "languages" := VFieldsSlice [item_tagged] ]}.

(** ** The rest of the package *)

(** [func (f *Fields) Keys() []string]: the keys are appended as the map is
    ranged over. Go leaves the order of a range over a map open; the order
    here is the one of [map_fold]. *)
Definition Keys (f : Fields) : list string :=
  map_fold (fun k _ keys => keys ++ [k]) [] f.

(** [func (el *ErrorList) Add(err error)] *)
Definition ErrorList_Add (el : list error) (err : error) : list error :=
  el ++ [err].

(** A Field Map whose values are all strings. *)
Definition strings_only (f : Fields) : Prop :=
  forall k v, f !! k = Some v -> exists s, v = VString s.

(** The [PatternList] of [src/Makefile] with the fields of a [PatternList]
    of [src/docparser.go], no [CleanItem] and [Optional] unset. *)
Definition PatternList_of_go {W : Type} (pl : DocparserGo.PatternList) : PatternList W :=
  {| pl_Name := DocparserGo.pl_Name pl;
     pl_ListRegex := DocparserGo.pl_ListRegex pl;
     pl_SplitRegex := DocparserGo.pl_SplitRegex pl;
     pl_ItemRegex := DocparserGo.pl_ItemRegex pl;
     pl_CleanItem := None;
     pl_Optional := false |}.

(** A content that the documents of [documents_name] match, and the fields
    it has. *)
Definition content_josh : string :=
  "My Name: josh" +:+ LF +:+ "My Email: josh@site.com" +:+ LF.
Definition fields_josh : Fields :=
  <[ "email" := VString "josh@site.com" ]> {[ "name" := VString "josh" ]}.

(** A document in another document, before a group. *)
Definition document_nested : Document unit :=
  [DocumentPattern document_names;
   GroupPattern (group_line "Email" "Email: " "email" None true)].

(** ** Methods with a pointer receiver *)

(** [Search] is declared on [*PatternGroup] and on [*PatternList]: the
    struct the receiver points to is a variable, which a method can read and
    could assign to. A method runs in a store made of that struct and of
    the state of the caller: with a receiver of type [T] it is a computation
    of [M (T * W)]. *)

(** [pg.f], the field [f] of the struct. *)
Definition read {T W A : Type} (f : T -> A) : M (T * W) A :=
  fun s => (Ret (f s.1), s).

(** [pg.f = v], an assignment to the struct, [upd] being what it changes.
    The methods of the package have no assignment to their receiver. *)
Definition assign {T W : Type} (upd : T -> T) : M (T * W) unit :=
  fun s => (Ret tt, (upd s.1, s.2)).

(** The call of a function of the caller, which runs in the state of the
    caller. *)
Definition call {T W A : Type} (m : M W A) : M (T * W) A :=
  fun s =>
    match m s.2 with
    | (o, w') => (o, (s.1, w'))
    end.

(** [func (pg *PatternGroup) Search(content string) (Fields, error)], field
    by field. *)
Definition PatternGroup_Search_ptr {W : Type} (content : string)
  : M (PatternGroup W * W) (Fields * option error) :=
  Regex ← read pg_Regex;
  '(fields, ok) ← lift (regexGroups Regex content);
  if negb ok then
    Optional ← read pg_Optional;
    if Optional : bool then mret (∅, None)
    else
      Name ← read pg_Name;
      mret (∅, Some (NoMatch Name content))
  else
    Clean ← read pg_Clean;
    fields ← call (apply_clean Clean fields);
    mret (fields, None).

(** The loop of [PatternList.Search], field by field. *)
Fixpoint PatternList_items_ptr {W : Type} (itemsTexts : list string) (i : nat)
    (items : list Fields) : M (PatternList W * W) (list Fields + error) :=
  match itemsTexts with
  | [] => mret (inl items)
  | itemText :: rest =>
      if String.eqb itemText "" then PatternList_items_ptr rest (S i) items
      else
        ItemRegex ← read pl_ItemRegex;
        '(fields, ok) ← lift (regexGroups ItemRegex itemText);
        if negb ok then
          Name ← read pl_Name;
          mret (inr (NoMatch (Name +:+ " - item " +:+ itoa i) itemText))
        else
          CleanItem ← read pl_CleanItem;
          fields ← call (apply_clean CleanItem fields);
          PatternList_items_ptr rest (S i) (items ++ [fields])
  end.

(** [func (pl *PatternList) Search(content string) (Fields, error)], field
    by field. *)
Definition PatternList_Search_ptr {W : Type} (content : string)
  : M (PatternList W * W) (Fields * option error) :=
  ListRegex ← read pl_ListRegex;
  if negb (MatchString ListRegex content) then
    Optional ← read pl_Optional;
    if Optional : bool then mret (∅, None)
    else
      Name ← read pl_Name;
      mret (∅, Some (NoMatch (Name +:+ " - list regex") content))
  else
    ListRegex ← read pl_ListRegex;
    listName ← lift (index (SubexpNames ListRegex) 1);
    ListRegex ← read pl_ListRegex;
    listText ← lift (index (submatches ListRegex content) 1);
    SplitRegex ← read pl_SplitRegex;
    let itemsTexts := Split SplitRegex listText in
    r ← PatternList_items_ptr itemsTexts 0 [];
    match r with
    | inr err => mret (∅, Some err)
    | inl items => mret ({[ listName := VFieldsSlice items ]}, None)
    end.

(** A [Clean] function that counts its calls in a variable it captured and
    returns the fields as they are. *)
Definition clean_counted (f : Fields) : M nat Fields :=
  fun n => (Ret f, S n).

(** A statement a caller can write after [Search]: [pg.Optional = true]. *)
Definition set_Optional {W : Type} (pg : PatternGroup W) : PatternGroup W :=
  {| pg_Name := pg_Name pg;
     pg_Regex := pg_Regex pg;
     pg_Clean := pg_Clean pg;
     pg_Optional := true |}.

(** * Properties *)

(** ** Field Maps *)

Lemma Update_lookup (f other : Fields) (k : string) :
  Update f other !! k =
    match other !! k with
    | Some v => Some v
    | None => f !! k
    end.
Proof.
  unfold Update.
  apply (map_fold_weak_ind
           (fun r m => r !! k = match m !! k with Some v => Some v | None => f !! k end)).
  - by rewrite lookup_empty.
  - intros i x m r Hi IH. destruct (decide (i = k)) as [->|Hne].
    + by rewrite !lookup_insert_eq.
    + by rewrite !lookup_insert_ne.
Qed.

Lemma Update_union (f other : Fields) : Update f other = other ∪ f.
Proof.
  apply map_eq. intros k. rewrite Update_lookup, lookup_union.
  destruct (other !! k), (f !! k); done.
Qed.

Lemma Update_empty_r (f : Fields) : Update f ∅ = f.
Proof. apply map_eq. intros k. by rewrite Update_lookup, lookup_empty. Qed.

Lemma Update_empty_l (f : Fields) : Update ∅ f = f.
Proof.
  apply map_eq. intros k. rewrite Update_lookup, lookup_empty. by destruct (f !! k).
Qed.

(** The key [k] of the merge of the maps [fs] into [f], in their order. *)
Lemma foldl_Update_lookup (fs : list Fields) (f : Fields) (k : string) :
  foldl Update f fs !! k =
    match last_value k fs with
    | Some v => Some v
    | None => f !! k
    end.
Proof.
  revert f. induction fs as [|g fs IH]; intros f; simpl; [done|].
  rewrite IH. destruct (last_value k fs); [done|].
  apply Update_lookup.
Qed.

Lemma GetString_absent (f : Fields) (key : string) :
  f !! key = None -> GetString f key = "".
Proof. unfold GetString. by intros ->. Qed.

Lemma GetString_not_string (f : Fields) (key : string) (v : value) :
  f !! key = Some v -> (forall s, v <> VString s) -> GetString f key = "".
Proof.
  unfold GetString. intros -> Hv. destruct v as [s| |]; [|done..].
  by destruct (Hv s).
Qed.

Lemma GetString_string (f : Fields) (key s : string) :
  f !! key = Some (VString s) -> GetString f key = s.
Proof. unfold GetString. by intros ->. Qed.

Lemma GetMapSlice_absent (f : Fields) (key : string) :
  f !! key = None -> GetMapSlice f key = Ret [].
Proof. unfold GetMapSlice. by intros ->. Qed.

Lemma GetMapSlice_not_slice (f : Fields) (key : string) (v : value) :
  f !! key = Some v -> (forall vf, v <> VFieldsSlice vf) -> GetMapSlice f key = Ret [].
Proof.
  unfold GetMapSlice. intros -> Hv. destruct v as [|vf|]; [done| |done].
  by destruct (Hv vf).
Qed.

Lemma GetFieldsSlice_absent (f : Fields) (key : string) :
  f !! key = None -> DocparserGo.GetFieldsSlice f key = [].
Proof. unfold DocparserGo.GetFieldsSlice. by intros ->. Qed.

Lemma GetFieldsSlice_not_slice (f : Fields) (key : string) (v : value) :
  f !! key = Some v -> (forall vf, v <> VFieldsSlice vf) ->
  DocparserGo.GetFieldsSlice f key = [].
Proof.
  unfold DocparserGo.GetFieldsSlice. intros -> Hv. destruct v as [|vf|]; [done| |done].
  by destruct (Hv vf).
Qed.

Lemma GetFieldsSlice_slice (f : Fields) (key : string) (vf : list Fields) :
  f !! key = Some (VFieldsSlice vf) -> DocparserGo.GetFieldsSlice f key = vf.
Proof. unfold DocparserGo.GetFieldsSlice. by intros ->. Qed.

(** The inner loop of [GetMapSlice] returns the strings of an item, and
    panics exactly when a value of the item is not a string. *)
Lemma item_strings_spec (item : Fields) :
  match item_strings item with
  | Ret vsi => VString <$> vsi = item
  | Panic => exists k v, item !! k = Some v /\ forall s, v <> VString s
  end.
Proof.
  unfold item_strings.
  apply (map_fold_weak_ind
           (fun (r : outcome (gmap string string)) (m : Fields) =>
              match r with
              | Ret vsi => VString <$> vsi = m
              | Panic => exists k v, m !! k = Some v /\ forall s, v <> VString s
              end)).
  - by rewrite fmap_empty.
  - intros i x m r Hi IH. destruct r as [vsi|]; simpl.
    + destruct x as [s|vf|t]; simpl.
      * by rewrite fmap_insert, IH.
      * exists i, (VFieldsSlice vf). by rewrite lookup_insert_eq.
      * exists i, (VOther t). by rewrite lookup_insert_eq.
    + destruct IH as (k & v & Hk & Hv). exists k, v. split; [|done].
      rewrite lookup_insert_ne; [done|]. intros ->. congruence.
Qed.

(** [GetMapSlice] on a slice of items that hold strings only. *)
Lemma items_strings_strings (vs : list (gmap string string)) :
  items_strings ((fun vsi : gmap string string => VString <$> vsi) <$> vs) = Ret vs.
Proof.
  induction vs as [|vsi vs IH]; [done|].
  rewrite fmap_cons. cbn [items_strings]. cbn beta.
  pose proof (item_strings_spec (VString <$> vsi)) as H.
  destruct (item_strings (VString <$> vsi)) as [vsi'|]; simpl.
  - rewrite IH. simpl.
    assert (vsi' = vsi) as ->; [|done].
    apply map_eq. intros k.
    assert ((VString <$> vsi') !! k = (VString <$> vsi) !! k) as Hk by by rewrite H.
    rewrite !lookup_fmap in Hk.
    destruct (vsi' !! k), (vsi !! k); simpl in Hk; congruence.
  - destruct H as (k & v & Hk & Hv). rewrite lookup_fmap in Hk.
    destruct (vsi !! k) as [s|]; simpl in Hk; [|done].
    injection Hk as <-. by destruct (Hv s).
Qed.

(** [GetMapSlice] panics exactly on a slice with an item that holds a value
    which is not a string. *)
Lemma items_strings_Panic (vf : list Fields) :
  items_strings vf = Panic <->
  exists item k v, item ∈ vf /\ item !! k = Some v /\ forall s, v <> VString s.
Proof.
  induction vf as [|item vf IH]; simpl.
  - split; [done|]. intros (item & ? & ? & Hin & _). by apply elem_of_nil in Hin.
  - pose proof (item_strings_spec item) as H.
    destruct (item_strings item) as [vsi|]; simpl.
    + destruct (items_strings vf) as [vs|]; simpl.
      * split; [done|]. intros (item' & k & v & Hin & Hk & Hv).
        apply elem_of_cons in Hin as [->|Hin].
        -- rewrite <- H, lookup_fmap in Hk.
           destruct (vsi !! k) as [s|]; simpl in Hk; [|done].
           injection Hk as <-. by destruct (Hv s).
        -- assert (Ret vs = Panic) as HP; [|done].
           apply IH. by exists item', k, v.
      * split; [|done]. intros _.
        destruct IH as [IH _]. destruct (IH eq_refl) as (item' & k & v & Hin & Hk & Hv).
        exists item', k, v. split; [by apply elem_of_cons; right|done].
    + split; [|done]. intros _. destruct H as (k & v & Hk & Hv).
      exists item, k, v. split; [by apply elem_of_cons; left|done].
Qed.

(** C7, as the code has it. Whatever a Field Map [f] stores for [key]:
    [GetString] is the empty string unless a string is stored, and is that
    string then; [GetMapSlice] and [GetFieldsSlice] are the empty slice
    unless a slice of Field Maps is stored; [GetFieldsSlice] is that slice
    then, and [GetMapSlice] is that slice, item by item as maps of strings,
    when the items hold strings only. *)
Theorem accessors_fallback (f : Fields) (key : string) :
  match f !! key with
  | None =>
      GetString f key = "" /\ GetMapSlice f key = Ret [] /\
      DocparserGo.GetFieldsSlice f key = []
  | Some (VString s) =>
      GetString f key = s /\ GetMapSlice f key = Ret [] /\
      DocparserGo.GetFieldsSlice f key = []
  | Some (VFieldsSlice vf) =>
      GetString f key = "" /\ DocparserGo.GetFieldsSlice f key = vf /\
      forall vs : list (gmap string string),
        vf = (fun vsi : gmap string string => VString <$> vsi) <$> vs ->
        GetMapSlice f key = Ret vs
  | Some (VOther _) =>
      GetString f key = "" /\ GetMapSlice f key = Ret [] /\
      DocparserGo.GetFieldsSlice f key = []
  end.
Proof.
  unfold GetString, GetMapSlice, DocparserGo.GetFieldsSlice.
  destruct (f !! key) as [[s|vf|t]|]; try done.
  split; [done|]. split; [done|]. intros vs ->. apply items_strings_strings.
Qed.

(** C7, as the code has it, on a slice whose item holds a string. *)
Lemma accessors_fallback_witness :
  fields_named !! "languages" = Some (VFieldsSlice [ {[ "name" := VString "Go" ]} ]) /\
  GetString fields_named "languages" = "" /\
  DocparserGo.GetFieldsSlice fields_named "languages" = [ {[ "name" := VString "Go" ]} ] /\
  GetMapSlice fields_named "languages" = Ret [item_named].
Proof.
  split; [reflexivity|].
  destruct (accessors_fallback fields_named "languages") as (Hstring & Hslice & Hmaps).
  split; [exact Hstring|]. split; [exact Hslice|].
  exact (Hmaps [item_named] eq_refl).
Defined.

(** C7, as the claim has it, fails: a slice of Field Maps is stored, and
    [GetMapSlice] returns nothing, since an item holds a slice. *)
Lemma accessors_fallback_counterexample :
  fields_nested !! "properties" = Some (VFieldsSlice [item_nested]) /\
  GetMapSlice fields_nested "properties" = Panic.
Proof. split; reflexivity. Qed.

(** C8 at a failing input: the value stored is a slice of one Field Map,
    whose key [tag] holds a value that is not a string. [GetString] and
    [GetFieldsSlice] return; [GetMapSlice] panics. *)
Theorem GetMapSlice_panics :
  fields_tagged !! "languages" = Some (VFieldsSlice [item_tagged]) /\
  GetString fields_tagged "languages" = "" /\
  DocparserGo.GetFieldsSlice fields_tagged "languages" = [item_tagged] /\
  GetMapSlice fields_tagged "languages" = Panic.
Proof. repeat split; reflexivity. Qed.

(** ** The named groups of a match *)

Lemma regexGroups_loop_spec (ms names : list string) (i : nat) (fields : Fields) :
  0 < i -> i + length names <= length ms ->
  regexGroups_loop ms names i fields =
    Ret (foldl (fun acc nm => <[nm.1 := VString nm.2]> acc) fields (zip names (drop i ms))).
Proof.
  revert i fields. induction names as [|n names IH]; intros i fields Hi Hlen; simpl.
  - done.
  - simpl in Hlen. destruct (Nat.eqb_spec i 0) as [->|_]; [lia|].
    destruct (lookup_lt_is_Some_2 ms i) as [m Hm]; [lia|].
    unfold index. rewrite Hm. simpl.
    rewrite (drop_S _ _ _ Hm). simpl. apply IH; lia.
Qed.

Lemma regexGroups_no_match (re : Regexp) (content : string) :
  MatchString re content = false -> regexGroups re content = Ret (∅, false).
Proof. unfold regexGroups. by intros ->. Qed.

Lemma regexGroups_match (re : Regexp) (content : string) (ms : list string) :
  Regexp_wf re -> FindStringSubmatch re content = Some ms ->
  regexGroups re content =
    Ret (group_fields (drop 1 (SubexpNames re)) (drop 1 ms), true).
Proof.
  intros [[names Hnames] Hlen] Hms. specialize (Hlen _ _ Hms).
  unfold regexGroups, MatchString, submatches. rewrite Hms, Hnames in *. simpl.
  simpl in Hlen. rewrite regexGroups_loop_spec by lia. done.
Qed.

Lemma MatchString_true (re : Regexp) (content : string) :
  MatchString re content = true <-> exists ms, FindStringSubmatch re content = Some ms.
Proof.
  unfold MatchString. destruct (FindStringSubmatch re content) as [ms|]; split.
  - by exists ms.
  - done.
  - done.
  - by intros [? ?].
Qed.

Lemma insert_fold_notin (names ms : list string) (acc : Fields) (k : string) :
  k ∉ names ->
  foldl (fun acc nm => <[nm.1 := VString nm.2]> acc) acc (zip names ms) !! k = acc !! k.
Proof.
  revert ms acc. induction names as [|n names IH]; intros ms acc Hk; [done|].
  destruct ms as [|m ms]; [done|]. simpl.
  apply not_elem_of_cons in Hk as [Hne Hk].
  rewrite IH by done. by rewrite lookup_insert_ne.
Qed.

Lemma insert_fold_last (names ms : list string) (acc : Fields) (i : nat) (n s : string) :
  names !! i = Some n -> ms !! i = Some s -> n ∉ drop (S i) names ->
  foldl (fun acc nm => <[nm.1 := VString nm.2]> acc) acc (zip names ms) !! n
    = Some (VString s).
Proof.
  revert ms acc i. induction names as [|n0 names IH]; intros ms acc i Hn Hs Hlast; [done|].
  destruct ms as [|m0 ms]; [done|]. simpl.
  destruct i as [|i]; simpl in *.
  - injection Hn as ->. injection Hs as ->.
    rewrite insert_fold_notin by done. by rewrite lookup_insert_eq.
  - by apply IH with i.
Qed.

Lemma insert_fold_is_Some (names ms : list string) (acc : Fields) (k : string) :
  length names <= length ms ->
  is_Some (foldl (fun acc nm => <[nm.1 := VString nm.2]> acc) acc (zip names ms) !! k)
  <-> k ∈ names \/ is_Some (acc !! k).
Proof.
  revert ms acc. induction names as [|n names IH]; intros ms acc Hlen.
  - simpl. split; [by right|]. intros [H|H]; [by apply elem_of_nil in H|done].
  - destruct ms as [|m ms]; simpl in Hlen; [lia|]. simpl.
    rewrite IH by lia. rewrite elem_of_cons.
    destruct (decide (k = n)) as [->|Hne].
    + rewrite lookup_insert_eq. split; [by left; left|by right].
    + rewrite lookup_insert_ne by done. tauto.
Qed.

Lemma group_fields_nil (ms : list string) : group_fields [] ms = ∅.
Proof. done. Qed.

(** ** [PatternGroup] *)

Section PatternGroupProperties.
Context {W : Type}.
Implicit Types (pg : PatternGroup W) (w : W).

Lemma PatternGroup_Search_matched pg (content : string) (ms : list string) w :
  Regexp_wf (pg_Regex pg) ->
  FindStringSubmatch (pg_Regex pg) content = Some ms ->
  PatternGroup_Search pg content w =
    match
      apply_clean (pg_Clean pg)
        (group_fields (drop 1 (SubexpNames (pg_Regex pg))) (drop 1 ms)) w
    with
    | (Ret fields, w') => (Ret (fields, None), w')
    | (Panic, w') => (Panic, w')
    end.
Proof.
  intros Hwf Hms. unfold PatternGroup_Search, lift, mbind, M_bind.
  rewrite (regexGroups_match _ _ _ Hwf Hms). simpl.
  by destruct (apply_clean _ _ w) as [[fields|] w'].
Qed.

(** C6. When the regex of a [PatternGroup] does not match the content,
    [Search] returns an empty Field Map, with no error when [Optional] is
    set, and with the error [NoMatch] of the name of the group and the
    content searched otherwise. *)
Theorem PatternGroup_Search_no_match pg (content : string) w :
  MatchString (pg_Regex pg) content = false ->
  PatternGroup_Search pg content w =
    (Ret (∅, if pg_Optional pg then None
             else Some (NoMatch (pg_Name pg) content)), w).
Proof.
  intros Hno. unfold PatternGroup_Search, lift, mbind, M_bind.
  rewrite (regexGroups_no_match _ _ Hno). simpl.
  by destruct (pg_Optional pg).
Qed.

(** C3, as the code has it. A [PatternGroup] has no [Clean] function and
    every capture group of its regex has a name. When the regex matches,
    [Search] returns, with no error, a Field Map whose keys are the names
    of the named capture groups; the name of a group is mapped to the
    submatch of that group (of the last group of that name); and the map
    is empty when the regex has no named group. *)
Theorem PatternGroup_Search_named_groups pg (content : string) (ms : list string) w :
  Regexp_wf (pg_Regex pg) ->
  pg_Clean pg = None ->
  FindStringSubmatch (pg_Regex pg) content = Some ms ->
  (forall i, 0 < i -> SubexpNames (pg_Regex pg) !! i <> Some "") ->
  exists fields : Fields,
    PatternGroup_Search pg content w = (Ret (fields, None), w) /\
    (forall k, is_Some (fields !! k) <->
               exists i, 0 < i /\ SubexpNames (pg_Regex pg) !! i = Some k /\ k <> "") /\
    (forall i n s,
       0 < i -> SubexpNames (pg_Regex pg) !! i = Some n ->
       (forall j, i < j -> SubexpNames (pg_Regex pg) !! j <> Some n) ->
       ms !! i = Some s ->
       fields !! n = Some (VString s)) /\
    ((forall i n, 0 < i -> SubexpNames (pg_Regex pg) !! i = Some n -> n = "") ->
     fields = ∅).
Proof.
  intros Hwf Hclean Hms Hnamed.
  exists (group_fields (drop 1 (SubexpNames (pg_Regex pg))) (drop 1 ms)).
  split; [|split; [|split]].
  - rewrite (PatternGroup_Search_matched _ _ _ _ Hwf Hms). by rewrite Hclean.
  - intros k. destruct Hwf as [[names Hnames] Hlen]. specialize (Hlen _ _ Hms).
    rewrite Hnames in *. simpl in Hlen. unfold group_fields.
    destruct ms as [|m0 ms]; simpl in Hlen; [lia|]. cbn [drop].
    rewrite !drop_0, insert_fold_is_Some by lia.
    rewrite lookup_empty. split.
    + intros [Hk|[? ?]]; [|done].
      apply list_elem_of_lookup in Hk as [i Hi]. exists (S i).
      split; [lia|]. split; [done|]. intros ->. by apply (Hnamed (S i)); [lia|].
    + intros (i & Hi & Hk & _). left. destruct i as [|i]; [lia|].
      apply list_elem_of_lookup. by exists i.
  - intros i n s Hi Hn Hlast Hs. destruct i as [|i]; [lia|].
    unfold group_fields. apply insert_fold_last with i.
    + by rewrite lookup_drop.
    + by rewrite lookup_drop.
    + intros Hin. apply list_elem_of_lookup in Hin as [j Hj].
      rewrite !lookup_drop in Hj. apply (Hlast (1 + (S i + j))); [lia|done].
  - intros Hnone. destruct (SubexpNames (pg_Regex pg)) as [|n0 [|n1 names]]; [done..|].
    destruct (Hnamed 1); [lia|]. simpl. f_equal. by apply (Hnone 1); [lia|].
Qed.

End PatternGroupProperties.

(** ** [PatternList] *)

Lemma nonempty_cons_empty (texts : list string) : nonempty ("" :: texts) = nonempty texts.
Proof. unfold nonempty. by rewrite filter_cons_False by (intros H; by apply H). Qed.

Lemma nonempty_cons (t : string) (texts : list string) :
  t <> "" -> nonempty (t :: texts) = t :: nonempty texts.
Proof. intros Ht. unfold nonempty. by rewrite filter_cons_True. Qed.

Lemma regexGroups_item_fields (re : Regexp) (t : string) :
  Regexp_wf re -> MatchString re t = true ->
  regexGroups re t = Ret (item_fields re t, true).
Proof.
  intros Hwf Hm. apply MatchString_true in Hm as [ms Hms].
  rewrite (regexGroups_match _ _ _ Hwf Hms). unfold item_fields, submatches.
  by rewrite Hms.
Qed.

Section PatternListProperties.
Context {W : Type}.
Implicit Types (pl : PatternList W) (w : W).

Lemma cleans_run_length clean (gs fs : list Fields) w w' :
  cleans_run clean gs w fs w' -> length fs = length gs.
Proof. induction 1; simpl; congruence. Qed.

Lemma cleans_run_None (gs fs : list Fields) w w' :
  cleans_run (W:=W) None gs w fs w' -> fs = gs /\ w' = w.
Proof.
  induction 1 as [|g gs w f w1 fs w2 Hc _ [-> ->]]; [done|].
  simpl in Hc. unfold mret, M_ret in Hc. by injection Hc as -> ->.
Qed.

Lemma cleans_run_None_total (gs : list Fields) w : cleans_run (W:=W) None gs w gs w.
Proof. induction gs as [|g gs IH]; [constructor|]. by eapply cleans_step. Qed.

(** The loop over texts that all match, or are empty. *)
Lemma PatternList_items_ok pl (texts : list string) :
  Regexp_wf (pl_ItemRegex pl) ->
  (forall t, t ∈ texts -> t <> "" -> MatchString (pl_ItemRegex pl) t = true) ->
  forall w fs w' i items,
    cleans_run (pl_CleanItem pl) (item_fields (pl_ItemRegex pl) <$> nonempty texts)
      w fs w' ->
    PatternList_items pl texts i items w = (Ret (inl (items ++ fs)), w').
Proof.
  intros Hwf. induction texts as [|t texts IH]; intros Hall w fs w' i items Hrun.
  - inversion Hrun; subst. simpl. by rewrite app_nil_r.
  - cbn [PatternList_items]. destruct (String.eqb_spec t "") as [->|Hne].
    + rewrite nonempty_cons_empty in Hrun. apply IH; [|done].
      intros t' Ht'. apply Hall. by apply elem_of_cons; right.
    + rewrite nonempty_cons in Hrun by done. rewrite fmap_cons in Hrun.
      inversion Hrun as [|g gs w0 f w1 fs' w2 Hclean Hrest]; subst.
      unfold lift, mbind, M_bind.
      rewrite regexGroups_item_fields; [|done|apply Hall; [by apply elem_of_cons; left|done]].
      simpl. rewrite Hclean.
      rewrite (IH (fun t' Ht' => Hall t' (proj2 (elem_of_cons _ _ _) (or_intror Ht')))
                 w1 fs' w' (S i) (items ++ [f]) Hrest).
      by rewrite <- app_assoc.
Qed.

(** The loop up to the first text that is not empty and does not match. *)
Lemma PatternList_items_fail pl (pre post : list string) (bad : string) :
  Regexp_wf (pl_ItemRegex pl) ->
  (forall t, t ∈ pre -> t <> "" -> MatchString (pl_ItemRegex pl) t = true) ->
  bad <> "" -> MatchString (pl_ItemRegex pl) bad = false ->
  forall w fs w1 i items,
    cleans_run (pl_CleanItem pl) (item_fields (pl_ItemRegex pl) <$> nonempty pre)
      w fs w1 ->
    PatternList_items pl (pre ++ bad :: post) i items w =
      (Ret (inr (NoMatch (pl_Name pl +:+ " - item " +:+ itoa (i + length pre)) bad)), w1).
Proof.
  intros Hwf Hall Hbad Hno. induction pre as [|t pre IH]; intros w fs w1 i items Hrun.
  - inversion Hrun; subst. cbn [app PatternList_items].
    destruct (String.eqb_spec bad "") as [->|_]; [done|].
    unfold lift, mbind, M_bind. rewrite (regexGroups_no_match _ _ Hno). simpl.
    by rewrite Nat.add_0_r.
  - cbn [app PatternList_items length]. rewrite Nat.add_succ_r.
    assert (forall t', t' ∈ pre -> t' <> "" -> MatchString (pl_ItemRegex pl) t' = true)
      as Hall' by (intros t' Ht'; apply Hall; by apply elem_of_cons; right).
    destruct (String.eqb_spec t "") as [->|Hne].
    + rewrite nonempty_cons_empty in Hrun. by apply (IH Hall' w fs w1 (S i) items).
    + rewrite nonempty_cons in Hrun by done. rewrite fmap_cons in Hrun.
      inversion Hrun as [|g gs w0 f w2 fs' w3 Hclean Hrest]; subst.
      unfold lift, mbind, M_bind.
      rewrite regexGroups_item_fields; [|done|apply Hall; [by apply elem_of_cons; left|done]].
      simpl. rewrite Hclean.
      by apply (IH Hall' w2 fs' w1 (S i) (items ++ [f])).
Qed.

(** [Search] once the list regex has matched and its first group is known. *)
Lemma PatternList_Search_located pl (content : string) (ms : list string)
    (listName listText : string) w :
  FindStringSubmatch (pl_ListRegex pl) content = Some ms ->
  SubexpNames (pl_ListRegex pl) !! 1 = Some listName ->
  ms !! 1 = Some listText ->
  PatternList_Search pl content w =
    match PatternList_items pl (Split (pl_SplitRegex pl) listText) 0 [] w with
    | (Ret (inl items), w') => (Ret ({[ listName := VFieldsSlice items ]}, None), w')
    | (Ret (inr err), w') => (Ret (∅, Some err), w')
    | (Panic, w') => (Panic, w')
    end.
Proof.
  intros Hms Hname Htext.
  unfold PatternList_Search, MatchString, submatches, index. rewrite Hms, Hname, Htext.
  unfold lift, mbind, M_bind. simpl.
  by destruct (PatternList_items _ _ _ _ w) as [[[items|err]|] w'].
Qed.

(** C4, as the code has it. The list regex of a [PatternList] matches the
    content; its first capture group has the name [listName] and the
    submatch [listText]; every text of the split of [listText] that is not
    empty matches the item regex. Then [Search] returns, with no error, a
    Field Map with the one key [listName], mapped to the fields of the
    texts that are not empty, in their order, each passed through
    [CleanItem] when there is one. *)
Theorem PatternList_Search_items pl (content : string) (ms : list string)
    (listName listText : string) w (fs : list Fields) w' :
  FindStringSubmatch (pl_ListRegex pl) content = Some ms ->
  SubexpNames (pl_ListRegex pl) !! 1 = Some listName ->
  ms !! 1 = Some listText ->
  Regexp_wf (pl_ItemRegex pl) ->
  (forall t, t ∈ Split (pl_SplitRegex pl) listText -> t <> "" ->
             MatchString (pl_ItemRegex pl) t = true) ->
  cleans_run (pl_CleanItem pl)
    (item_fields (pl_ItemRegex pl) <$> nonempty (Split (pl_SplitRegex pl) listText))
    w fs w' ->
  PatternList_Search pl content w =
    (Ret ({[ listName := VFieldsSlice fs ]}, None), w') /\
  length fs = length (nonempty (Split (pl_SplitRegex pl) listText)) /\
  (pl_CleanItem pl = None ->
   fs = item_fields (pl_ItemRegex pl) <$> nonempty (Split (pl_SplitRegex pl) listText)).
Proof.
  intros Hms Hname Htext Hwf Hall Hrun. split; [|split].
  - rewrite (PatternList_Search_located _ _ _ _ _ _ Hms Hname Htext).
    by rewrite (PatternList_items_ok _ _ Hwf Hall w fs w' 0 [] Hrun).
  - rewrite (cleans_run_length _ _ _ _ _ Hrun). by rewrite length_fmap.
  - intros Hnone. rewrite Hnone in Hrun. by apply cleans_run_None in Hrun as [-> _].
Qed.

(** C5, as the code has it. The list regex has matched, and [bad] is the
    first text of the split that is not empty and does not match the item
    regex. Then [Search] returns an empty Field Map and the error
    [NoMatch] whose name is the name of the list, [ - item ] and the index
    of [bad] in the split, the empty texts before it counted; whatever
    [Optional] is. *)
Theorem PatternList_Search_item_no_match pl (content : string) (ms : list string)
    (listName listText : string) (pre post : list string) (bad : string)
    w (fs : list Fields) w1 :
  FindStringSubmatch (pl_ListRegex pl) content = Some ms ->
  SubexpNames (pl_ListRegex pl) !! 1 = Some listName ->
  ms !! 1 = Some listText ->
  Split (pl_SplitRegex pl) listText = pre ++ bad :: post ->
  Regexp_wf (pl_ItemRegex pl) ->
  (forall t, t ∈ pre -> t <> "" -> MatchString (pl_ItemRegex pl) t = true) ->
  cleans_run (pl_CleanItem pl) (item_fields (pl_ItemRegex pl) <$> nonempty pre) w fs w1 ->
  bad <> "" ->
  MatchString (pl_ItemRegex pl) bad = false ->
  PatternList_Search pl content w =
    (Ret (∅, Some (NoMatch (pl_Name pl +:+ " - item " +:+ itoa (length pre)) bad)), w1).
Proof.
  intros Hms Hname Htext Hsplit Hwf Hall Hrun Hbad Hno.
  rewrite (PatternList_Search_located _ _ _ _ _ _ Hms Hname Htext), Hsplit.
  by rewrite (PatternList_items_fail _ _ _ _ Hwf Hall Hbad Hno w fs w1 0 [] Hrun).
Qed.

End PatternListProperties.

(** C10. A regex without capture group has the one name of the whole
    expression. When such a regex is the list regex of a [PatternList] and
    matches the content, [Search] panics at [SubexpNames()[1]], in both
    files, and returns no [NoMatch]. *)
Theorem PatternList_Search_no_group (re : Regexp) (content : string) :
  SubexpNames re = [""] ->
  MatchString re content = true ->
  (forall W (pl : PatternList W) (w : W),
     pl_ListRegex pl = re -> PatternList_Search pl content w = (Panic, w)) /\
  (forall pl : DocparserGo.PatternList,
     DocparserGo.pl_ListRegex pl = re -> DocparserGo.PatternList_Search pl content = Panic).
Proof.
  intros Hnames Hm. split.
  - intros W pl w Hre. unfold PatternList_Search. by rewrite Hre, Hm, Hnames.
  - intros pl Hre. unfold DocparserGo.PatternList_Search. by rewrite Hre, Hm, Hnames.
Qed.

(** ** Searching twice *)

Section Determinism.
Context {W : Type}.

Lemma bind_deterministic {A B : Type} (m : M W A) (k : A -> M W B) (w w' : W) :
  (m w).1 = (m w').1 ->
  (forall a w1 w1', (k a w1).1 = (k a w1').1) ->
  ((m ≫= k) w).1 = ((m ≫= k) w').1.
Proof.
  intros Hm Hk. unfold mbind, M_bind.
  destruct (m w) as [[a|] w1], (m w') as [[a'|] w1']; simpl in Hm; try done.
  injection Hm as ->. apply Hk.
Qed.

Lemma apply_clean_deterministic (clean : option (Fields -> M W Fields))
    (fields : Fields) (w w' : W) :
  deterministic clean ->
  (apply_clean clean fields w).1 = (apply_clean clean fields w').1.
Proof. destruct clean as [c|]; simpl; [|done]. intros Hc. apply Hc. Qed.

Lemma PatternGroup_Search_deterministic (pg : PatternGroup W) (content : string)
    (w w' : W) :
  deterministic (pg_Clean pg) ->
  (PatternGroup_Search pg content w).1 = (PatternGroup_Search pg content w').1.
Proof.
  intros Hc. unfold PatternGroup_Search. apply bind_deterministic; [done|].
  intros [fields ok] w1 w1'. destruct ok; simpl.
  - apply bind_deterministic; [by apply apply_clean_deterministic|done].
  - by destruct (pg_Optional pg).
Qed.

Lemma PatternList_items_deterministic (pl : PatternList W) (texts : list string) :
  deterministic (pl_CleanItem pl) ->
  forall i items w w',
    (PatternList_items pl texts i items w).1 = (PatternList_items pl texts i items w').1.
Proof.
  intros Hc. induction texts as [|t texts IH]; intros i items w w'; [done|].
  cbn [PatternList_items]. destruct (String.eqb t ""); [apply IH|].
  apply bind_deterministic; [done|].
  intros [fields ok] w1 w1'. destruct ok; simpl; [|done].
  apply bind_deterministic; [by apply apply_clean_deterministic|].
  intros f w2 w2'. apply IH.
Qed.

Lemma PatternList_Search_deterministic (pl : PatternList W) (content : string)
    (w w' : W) :
  deterministic (pl_CleanItem pl) ->
  (PatternList_Search pl content w).1 = (PatternList_Search pl content w').1.
Proof.
  intros Hc. unfold PatternList_Search.
  destruct (negb (MatchString (pl_ListRegex pl) content)).
  { by destruct (pl_Optional pl). }
  apply bind_deterministic; [done|]. intros listName w1 w1'.
  apply bind_deterministic; [done|]. intros listText w2 w2'.
  apply bind_deterministic; [by apply PatternList_items_deterministic|].
  by intros [items|err] w3 w3'.
Qed.

End Determinism.

(** ** [Document] and [Documents] *)

Section DocumentProperties.
Context {W : Type}.
Variable Quote : string -> string.

Lemma Document_loop_spec (d : list (Pattern W)) (content : string) (w : W)
    (fs : list Fields) (r : option error) (w' : W) :
  children_run d content w fs r w' ->
  forall f,
    Document_loop d content f w =
      (Ret (match r with
            | None => foldl Update f fs
            | Some _ => ∅
            end, r), w').
Proof.
  induction 1 as [content w|p rest content w pf w1 fs r w2 Hp _ IH
                  |p rest content w pf e w1 Hp]; intros f.
  - done.
  - cbn [Document_loop]. unfold mbind, M_bind. rewrite Hp. simpl.
    rewrite IH. by destruct r.
  - cbn [Document_loop]. unfold mbind, M_bind. by rewrite Hp.
Qed.

(** The children of a document either run as [children_run] has it, or
    one of them panics, and so does [Document.Search]. *)
Lemma Document_loop_total (d : list (Pattern W)) (content : string) :
  forall (w : W) (f : Fields),
    (exists fs r w', children_run d content w fs r w') \/
    (exists w', Document_loop d content f w = (Panic, w')).
Proof.
  induction d as [|p rest IH]; intros w f.
  - left. exists [], None, w. constructor.
  - cbn [Document_loop]. unfold mbind, M_bind.
    destruct (Search p content w) as [[[pf [e|]]|] w1] eqn:Hp; simpl.
    + left. exists [], (Some e), w1. by eapply children_fail.
    + destruct (IH w1 (Update f pf)) as [(fs & r & w' & Hrun)|[w' Hpanic]].
      * left. exists (pf :: fs), r, w'. by eapply children_ok.
      * right. by exists w'.
    + right. by exists w1.
Qed.

(** C1. The children of a [Document] are searched in their order, each in
    the state the one before left, until one fails. [Search] starts from
    the empty Field Map; when a child fails it returns the empty Field Map
    and the error of that child, and the children after it are not
    searched; otherwise it returns the merge of the fields of all the
    children, where a key has the value of the last child that has it. *)
Theorem Document_Search_spec (d : Document W) (content : string) (w : W)
    (fs : list Fields) (r : option error) (w' : W) :
  children_run d content w fs r w' ->
  Document_Search d content w =
    (Ret (match r with
          | None => foldl Update ∅ fs
          | Some _ => ∅
          end, r), w') /\
  (forall k, foldl Update ∅ fs !! k = last_value k fs) /\
  Document_Search [] content w = (Ret (∅, None), w).
Proof.
  intros Hrun. split; [|split].
  - by apply Document_loop_spec.
  - intros k. rewrite foldl_Update_lookup, lookup_empty. by destruct (last_value k fs).
  - done.
Qed.

Lemma messages_lookup (es : list error) (i j : nat) (e : error) :
  es !! j = Some e ->
  messages Quote i es !! j = Some ("Document " +:+ itoa (i + j) +:+ ": " +:+ Error Quote e).
Proof.
  revert i j. induction es as [|e0 es IH]; intros i j Hj; [done|].
  destruct j as [|j]; simpl in *.
  - injection Hj as ->. by rewrite Nat.add_0_r.
  - rewrite (IH (S i) j Hj). by rewrite Nat.add_succ_r.
Qed.

Lemma messages_length (es : list error) (i : nat) :
  length (messages Quote i es) = length es.
Proof. revert i. induction es as [|e es IH]; intros i; simpl; [done|]. by rewrite IH. Qed.

Lemma messages_app (es : list error) (i : nat) (e : error) :
  messages Quote i (es ++ [e]) =
    messages Quote i es ++ ["Document " +:+ itoa (i + length es) +:+ ": " +:+ Error Quote e].
Proof.
  revert i. induction es as [|e0 es IH]; intros i; simpl.
  - by rewrite Nat.add_0_r.
  - by rewrite IH, Nat.add_succ_r.
Qed.

Lemma Error_ErrorList_messages (msgs : list string) :
  Error Quote (ErrorList (errorString <$> msgs)) = Join msgs "; ".
Proof.
  cbn [Error]. f_equal. induction msgs as [|m msgs IH]; [done|].
  rewrite fmap_cons. cbn [map Error]. by rewrite IH.
Qed.

Lemma Documents_loop_spec (ds : list (Document W)) (content : string) (w : W)
    (es : list error) (r : option Fields) (w' : W) :
  documents_run ds content w es r w' ->
  forall i errList,
    Documents_loop Quote ds content i errList w =
      (Ret (match r with
            | Some f => (f, None)
            | None => (∅, Some (ErrorList (errList ++ (errorString <$> messages Quote i es))))
            end), w').
Proof.
  induction 1 as [content w|doc rest content w f e w1 es r w2 Hdoc _ IH
                  |doc rest content w f w1 Hdoc]; intros i errList.
  - simpl. by rewrite app_nil_r.
  - cbn [Documents_loop]. unfold mbind, M_bind. rewrite Hdoc. simpl.
    rewrite IH. destruct r; [done|]. by rewrite <- app_assoc.
  - cbn [Documents_loop]. unfold mbind, M_bind. by rewrite Hdoc.
Qed.

(** The documents either run as [documents_run] has it, or a child of one
    of them panics, and so does [Documents.Search]. *)
Lemma Documents_loop_total (ds : list (Document W)) (content : string) :
  forall (w : W) (i : nat) (errList : list error),
    (exists es r w', documents_run ds content w es r w') \/
    (exists w', Documents_loop Quote ds content i errList w = (Panic, w')).
Proof.
  induction ds as [|doc rest IH]; intros w i errList.
  - left. exists [], None, w. constructor.
  - cbn [Documents_loop]. unfold mbind, M_bind.
    destruct (Document_Search doc content w) as [[[f [e|]]|] w1] eqn:Hdoc; simpl.
    + destruct (IH w1 (S i)
                  (errList ++ [errorString ("Document " +:+ itoa i +:+ ": " +:+ Error Quote e)]))
        as [(es & r & w' & Hrun)|[w' Hpanic]].
      * left. exists (e :: es), r, w'. by eapply documents_fail.
      * right. by exists w'.
    + left. exists [], (Some f), w1. by eapply documents_ok.
    + right. by exists w1.
Qed.

(** C2. The documents of a [Documents] are searched in their order, each
    once and in the state the one before left, until one succeeds.
    [Search] returns the fields of that document with no error. When all
    fail it returns one error; its message is made of the messages of the
    documents, the one at the index [j], from 0, after [Document j: ],
    joined in that order by [; ]. *)
Theorem Documents_Search_spec (ds : Documents W) (content : string) (w : W)
    (es : list error) (r : option Fields) (w' : W) :
  documents_run ds content w es r w' ->
  Documents_Search Quote ds content w =
    (Ret (match r with
          | Some f => (f, None)
          | None => (∅, Some (ErrorList (errorString <$> messages Quote 0 es)))
          end), w') /\
  Error Quote (ErrorList (errorString <$> messages Quote 0 es))
    = Join (messages Quote 0 es) "; " /\
  length (messages Quote 0 es) = length es /\
  (forall j e, es !! j = Some e ->
     messages Quote 0 es !! j
       = Some ("Document " +:+ itoa j +:+ ": " +:+ Error Quote e)) /\
  (forall e0 e1, es = [e0; e1] ->
     Error Quote (ErrorList (errorString <$> messages Quote 0 es))
       = ("Document 0: " +:+ Error Quote e0) +:+ "; " +:+
         ("Document 1: " +:+ Error Quote e1)).
Proof.
  intros Hrun. repeat split.
  - unfold Documents_Search. by rewrite (Documents_loop_spec _ _ _ _ _ _ Hrun).
  - apply Error_ErrorList_messages.
  - apply messages_length.
  - intros j e Hj. by rewrite (messages_lookup _ 0 j e Hj).
  - intros e0 e1 ->. reflexivity.
Qed.

End DocumentProperties.

(** * Instances *)

(** ** The expressions above are what [regexp] compiles *)

Lemma Regexp_wf_re_field (pat name : string) : Regexp_wf (re_field pat name).
Proof.
  split; [by eexists|]. intros s m. simpl.
  destruct (after_first pat s) as [r|]; [|done].
  destruct (until_LF r); [|done]. by intros [= <-].
Qed.

Lemma Regexp_wf_re_line (pat name : string) : Regexp_wf (re_line pat name).
Proof.
  split; [by eexists|]. intros s m. simpl.
  destruct (String.prefix pat s); [|done].
  destruct (until_LF _); [done|]. by intros [= <-].
Qed.

Lemma Regexp_wf_re_rest (pat name : string) : Regexp_wf (re_rest pat name).
Proof.
  split; [by eexists|]. intros s m. simpl.
  destruct (after_first pat s); [|done]. by intros [= <-].
Qed.

Lemma Regexp_wf_re_rest2 (pat name : string) : Regexp_wf (re_rest2 pat name).
Proof.
  split; [by eexists|]. intros s m. simpl.
  destruct (after_first _ s); [|done]. by intros [= <-].
Qed.

Lemma Regexp_wf_re_literal (pat : string) : Regexp_wf (re_literal pat).
Proof.
  split; [by eexists|]. intros s m. simpl.
  destruct (after_first pat s); [|done]. by intros [= <-].
Qed.

Lemma Regexp_wf_re_ab : Regexp_wf re_ab.
Proof.
  split; [by eexists|]. intros s m. simpl.
  destruct (after_first _ s); [|done]. by intros [= <-].
Qed.

(** ** [Document] and [Documents] *)

(** C1 on a document whose two groups store the field [name]: the second
    value is the one returned. *)
Lemma Document_Search_spec_witness :
  children_run document_names content_names tt
    [ {[ "name" := VString "bob" ]}; {[ "name" := VString "josh" ]} ] None tt /\
  Document_Search document_names content_names tt
    = (Ret ({[ "name" := VString "josh" ]}, None), tt).
Proof.
  assert (children_run document_names content_names tt
            [ {[ "name" := VString "bob" ]}; {[ "name" := VString "josh" ]} ] None tt)
    as Hrun.
  { eapply children_ok; [reflexivity|]. eapply children_ok; [reflexivity|]. constructor. }
  split; [exact Hrun|].
  exact (proj1 (Document_Search_spec document_names content_names tt _ None tt Hrun)).
Defined.

(** A child that fails: the field of the first child is not returned, and
    the error is the one of the second. *)
Lemma Document_Search_fail_fast :
  Document_Search document_names ("Name: bob" +:+ LF) tt
    = (Ret (∅, Some (NoMatch "Other name" ("Name: bob" +:+ LF))), tt).
Proof. reflexivity. Qed.

(** The calls [Document.Search] makes: the children in their order, and
    none after the one that fails. *)
Lemma Document_Search_calls :
  Document_Search
    [pattern_logging "a" ({[ "k" := VString "1" ]}, None);
     pattern_logging "b" ({[ "k" := VString "2" ]}, Some (NoMatch "b" "text"));
     pattern_logging "c" ({[ "k" := VString "3" ]}, None)] "text" []
    = (Ret (∅, Some (NoMatch "b" "text")), ["a"; "b"]).
Proof. reflexivity. Qed.

(** The calls [Documents.Search] makes: each document once, in their
    order, and none after the one that succeeds. *)
Lemma Documents_Search_calls :
  Documents_Search quote_plain
    [ [pattern_logging "a" (∅, Some (NoMatch "a" "text"))];
      [pattern_logging "b" ({[ "k" := VString "2" ]}, None)];
      [pattern_logging "c" ({[ "k" := VString "3" ]}, None)] ] "text" []
    = (Ret ({[ "k" := VString "2" ]}, None), ["a"; "b"]).
Proof. reflexivity. Qed.

(** C2 on the two documents and the content of [TestDocumentsNoMatch]. *)
Lemma Documents_Search_spec_witness :
  documents_run documents_name content_no_match tt
    [NoMatch "Name" content_no_match; NoMatch "Name" content_no_match] None tt /\
  Documents_Search quote_plain documents_name content_no_match tt
    = (Ret (∅, Some (ErrorList
                       [errorString ("Document 0: No match for " +:+ DQ +:+ "Name" +:+ DQ);
                        errorString ("Document 1: No match for " +:+ DQ +:+ "Name" +:+ DQ)])),
       tt) /\
  Error quote_plain
    (ErrorList
       [errorString ("Document 0: No match for " +:+ DQ +:+ "Name" +:+ DQ);
        errorString ("Document 1: No match for " +:+ DQ +:+ "Name" +:+ DQ)])
    = "Document 0: No match for " +:+ DQ +:+ "Name" +:+ DQ +:+
      "; Document 1: No match for " +:+ DQ +:+ "Name" +:+ DQ.
Proof.
  assert (documents_run documents_name content_no_match tt
            [NoMatch "Name" content_no_match; NoMatch "Name" content_no_match] None tt)
    as Hrun.
  { eapply documents_fail; [reflexivity|]. eapply documents_fail; [reflexivity|].
    constructor. }
  split; [exact Hrun|].
  destruct (Documents_Search_spec quote_plain documents_name content_no_match tt _ None tt
              Hrun) as (Hsearch & _ & _ & _ & Hmsg).
  split; [exact Hsearch|]. exact (Hmsg _ _ eq_refl).
Defined.

(** The first document that succeeds gives the fields. *)
Lemma Documents_Search_first_success :
  Documents_Search quote_plain documents_name
    ("My Name: josh" +:+ LF +:+ "My Email: josh@site.com" +:+ LF) tt
    = (Ret (<[ "email" := VString "josh@site.com" ]> {[ "name" := VString "josh" ]}, None),
       tt).
Proof. reflexivity. Qed.

(** ** [PatternGroup] *)

(** C6 on a group that does not match, required and optional. *)
Lemma PatternGroup_Search_no_match_witness :
  MatchString (re_field "Name: " "name") content_no_match = false /\
  PatternGroup_Search (group_line "Name" "Name: " "name" None false) content_no_match tt
    = (Ret (∅, Some (NoMatch "Name" content_no_match)), tt) /\
  PatternGroup_Search (group_line "Name" "Name: " "name" None true) content_no_match tt
    = (Ret (∅, None), tt).
Proof.
  split; [reflexivity|]. split.
  - exact (PatternGroup_Search_no_match
             (group_line "Name" "Name: " "name" None false) content_no_match tt eq_refl).
  - exact (PatternGroup_Search_no_match
             (group_line "Name" "Name: " "name" None true) content_no_match tt eq_refl).
Defined.

Lemma names_of_field (head key : string) :
  key <> "" -> forall i, 0 < i -> SubexpNames (re_field head key) !! i <> Some "".
Proof.
  intros Hkey i Hi. destruct i as [|[|i]]; simpl; [lia| |done]. congruence.
Qed.

(** C3, as the code has it, on the group of [ExamplePatternGroup]. *)
Lemma PatternGroup_Search_named_groups_witness :
  Regexp_wf (re_field "Name " "name") /\
  FindStringSubmatch (re_field "Name " "name") content_plain
    = Some [content_plain; "Igor Sobreira"] /\
  (forall i, 0 < i -> SubexpNames (re_field "Name " "name") !! i <> Some "") /\
  exists fields : Fields,
    PatternGroup_Search (group_line "Name" "Name " "name" None false) content_plain tt
      = (Ret (fields, None), tt) /\
    fields !! "name" = Some (VString "Igor Sobreira").
Proof.
  split; [apply Regexp_wf_re_field|]. split; [reflexivity|].
  split; [by apply names_of_field|].
  destruct (PatternGroup_Search_named_groups
              (group_line "Name" "Name " "name" None false) content_plain
              [content_plain; "Igor Sobreira"] tt
              (Regexp_wf_re_field _ _) eq_refl eq_refl
              (names_of_field "Name " "name" ltac:(done)))
    as (fields & Hsearch & _ & Hvalue & _).
  exists fields. split; [exact Hsearch|].
  apply (Hvalue 1 "name" "Igor Sobreira"); [lia|reflexivity| |reflexivity].
  intros [|[|j]] Hj; [lia..|done].
Defined.

(** C3, as the claim has it, fails. With a [Clean] function the value of
    the key [name] is not the submatch of the group; and an unnamed group
    is not ignored: its submatch is stored under the empty key. *)
Lemma PatternGroup_Search_counterexample :
  FindStringSubmatch (re_field "Name " "name") content_escaped
    = Some [content_escaped; "Igor%20Sobreira"] /\
  PatternGroup_Search (group_line "Name" "Name " "name" (Some clean_name) false)
    content_escaped tt
    = (Ret ({[ "name" := VString "Igor Sobreira" ]}, None), tt) /\
  SubexpNames re_ab = [""; ""; "x"] /\
  FindStringSubmatch re_ab "ab" = Some ["ab"; "a"; "b"] /\
  PatternGroup_Search group_ab "ab" tt
    = (Ret (<[ "x" := VString "b" ]> {[ "" := VString "a" ]}, None), tt).
Proof. repeat split; reflexivity. Qed.

(** ** [PatternList] *)

Lemma items_match (texts : list string) :
  forallb (fun t => String.eqb t "" || MatchString (re_line "- " "v") t) texts = true ->
  forall t, t ∈ texts -> t <> "" -> MatchString (re_line "- " "v") t = true.
Proof.
  intros Hall t Ht Hne. apply list_elem_of_In in Ht.
  rewrite forallb_forall in Hall. specialize (Hall t Ht).
  apply orb_true_iff in Hall as [Hempty|Hm]; [|done].
  by apply String.eqb_eq in Hempty.
Qed.

(** C4, as the code has it, on the list of the claim: the body is the three
    lines [- a], [- b] and [- c], each ended by a line feed. *)
Lemma PatternList_Search_items_witness :
  FindStringSubmatch (re_rest ("Items:" +:+ LF) "items") content_items
    = Some [content_items; "- a" +:+ LF +:+ "- b" +:+ LF +:+ "- c" +:+ LF] /\
  Split re_LF ("- a" +:+ LF +:+ "- b" +:+ LF +:+ "- c" +:+ LF) = ["- a"; "- b"; "- c"; ""] /\
  PatternList_Search (list_items false) content_items tt
    = (Ret ({[ "items" := VFieldsSlice [ {[ "v" := VString "a" ]};
                                         {[ "v" := VString "b" ]};
                                         {[ "v" := VString "c" ]} ] ]}, None), tt).
Proof.
  split; [reflexivity|]. split; [reflexivity|].
  refine (proj1 (PatternList_Search_items (list_items false) content_items
                   [content_items; "- a" +:+ LF +:+ "- b" +:+ LF +:+ "- c" +:+ LF]
                   "items" ("- a" +:+ LF +:+ "- b" +:+ LF +:+ "- c" +:+ LF) tt
                   [ {[ "v" := VString "a" ]}; {[ "v" := VString "b" ]};
                     {[ "v" := VString "c" ]} ] tt
                   eq_refl eq_refl eq_refl (Regexp_wf_re_line _ _) _ _)).
  - apply items_match. reflexivity.
  - eapply cleans_step; [reflexivity|]. eapply cleans_step; [reflexivity|].
    eapply cleans_step; [reflexivity|]. constructor.
Defined.

(** C4, as the claim has it, fails. The list regex has one named group,
    [items], after an unnamed group; it matches, and the lines of the group
    [items] match the item regex. [Search] takes the name and the submatch
    of the unnamed group: the key is empty and there is no item. *)
Lemma PatternList_Search_items_counterexample :
  SubexpNames (re_rest2 "Items:" "items") = [""; ""; "items"] /\
  FindStringSubmatch (re_rest2 "Items:" "items") content_items
    = Some [content_items; LF; "- a" +:+ LF +:+ "- b" +:+ LF +:+ "- c" +:+ LF] /\
  forallb (fun t => String.eqb t "" || MatchString (re_line "- " "v") t)
    (Split re_LF ("- a" +:+ LF +:+ "- b" +:+ LF +:+ "- c" +:+ LF)) = true /\
  PatternList_Search list_items2 content_items tt
    = (Ret ({[ "" := VFieldsSlice [] ]}, None), tt).
Proof. repeat split; reflexivity. Qed.

(** C5, as the code has it, on an optional list: the text [bad] is the
    third of the split, after an item and an empty text. *)
Lemma PatternList_Search_item_no_match_witness :
  FindStringSubmatch (re_rest ("Items:" +:+ LF) "items") content_gap
    = Some [content_gap; "- a" +:+ LF +:+ LF +:+ "bad" +:+ LF +:+ "- c" +:+ LF] /\
  Split re_LF ("- a" +:+ LF +:+ LF +:+ "bad" +:+ LF +:+ "- c" +:+ LF)
    = ["- a"; ""] ++ "bad" :: ["- c"; ""] /\
  MatchString (re_line "- " "v") "bad" = false /\
  PatternList_Search (list_items true) content_gap tt
    = (Ret (∅, Some (NoMatch "Items - item 2" "bad")), tt).
Proof.
  split; [reflexivity|]. split; [reflexivity|]. split; [reflexivity|].
  refine (PatternList_Search_item_no_match (list_items true) content_gap
            [content_gap; "- a" +:+ LF +:+ LF +:+ "bad" +:+ LF +:+ "- c" +:+ LF]
            "items" ("- a" +:+ LF +:+ LF +:+ "bad" +:+ LF +:+ "- c" +:+ LF)
            ["- a"; ""] ["- c"; ""] "bad" tt [ {[ "v" := VString "a" ]} ] tt
            eq_refl eq_refl eq_refl eq_refl (Regexp_wf_re_line _ _) _ _ _ eq_refl).
  - apply items_match. reflexivity.
  - eapply cleans_step; [reflexivity|]. constructor.
  - discriminate.
Defined.

(** C5, as the claim has it, fails: [bad] is the first text that the loop
    does not skip, the item 0 of those it processes, and the error has the
    index 1, that of [bad] in the split. *)
Lemma PatternList_Search_item_no_match_counterexample :
  FindStringSubmatch (re_rest ("Items:" +:+ LF) "items") content_bad
    = Some [content_bad; LF +:+ "bad"] /\
  Split re_LF (LF +:+ "bad") = [""; "bad"] /\
  nonempty (Split re_LF (LF +:+ "bad")) !! 0 = Some "bad" /\
  PatternList_Search (list_items false) content_bad tt
    = (Ret (∅, Some (NoMatch "Items - item 1" "bad")), tt).
Proof. repeat split; reflexivity. Qed.

(** C10 on a list regex without capture group. *)
Lemma PatternList_Search_no_group_witness :
  SubexpNames (re_literal "Items:") = [""] /\
  MatchString (re_literal "Items:") content_items = true /\
  PatternList_Search list_no_group content_items tt = (Panic, tt) /\
  DocparserGo.PatternList_Search list_no_group_go content_items = Panic.
Proof.
  split; [reflexivity|]. split; [reflexivity|].
  destruct (PatternList_Search_no_group (re_literal "Items:") content_items
              eq_refl eq_refl) as [Hpanic Hpanic_go].
  split.
  - exact (Hpanic unit list_no_group tt eq_refl).
  - exact (Hpanic_go list_no_group_go eq_refl).
Defined.

(** ** Searching twice *)

(** A [Clean] function that is not deterministic: the second [Search]
    returns another Field Map than the first. *)
Lemma Search_twice_counting :
  (PatternGroup_Search (group_line "Name" "Name " "name" (Some clean_count) false)
     content_plain 0).1
    = Ret (<[ "call" := VOther 0 ]> {[ "name" := VString "Igor Sobreira" ]}, None) /\
  (PatternGroup_Search (group_line "Name" "Name " "name" (Some clean_count) false)
     content_plain
     (PatternGroup_Search (group_line "Name" "Name " "name" (Some clean_count) false)
        content_plain 0).2).1
    = Ret (<[ "call" := VOther 1 ]> {[ "name" := VString "Igor Sobreira" ]}, None).
Proof. split; reflexivity. Qed.

(** * More properties of the package *)

(** ** Field Maps *)

(** X1. After [Update], a key of [other] has the value [other] gives it, a
    key that [other] lacks keeps the value it had in the receiver, and the
    keys are those of the receiver and those of [other]: no key is lost. *)
Theorem Update_merge (f other : Fields) (k : string) :
  (forall v, other !! k = Some v -> Update f other !! k = Some v) /\
  (other !! k = None -> Update f other !! k = f !! k) /\
  (is_Some (Update f other !! k) <-> is_Some (f !! k) \/ is_Some (other !! k)).
Proof.
  rewrite Update_lookup. split; [|split].
  - by intros v ->.
  - by intros ->.
  - destruct (other !! k) as [v|]; split.
    + by right.
    + by intros _.
    + by left.
    + by intros [H|[? ?]].
Qed.

(** X2. Merging [a] and then [b] into a receiver is merging into it the
    merge of [b] into [a]; merging the same map twice is merging it once;
    and the empty map is neutral on both sides. *)
Theorem Update_assoc (f a b : Fields) :
  Update (Update f a) b = Update f (Update a b) /\
  Update (Update f a) a = Update f a /\
  Update f ∅ = f /\
  Update ∅ f = f.
Proof.
  split; [|split; [|split]].
  - apply map_eq. intros k. rewrite !Update_lookup.
    by destruct (b !! k), (a !! k).
  - apply map_eq. intros k. rewrite !Update_lookup. by destruct (a !! k).
  - apply Update_empty_r.
  - apply Update_empty_l.
Qed.

(** X3. Two Field Maps can be merged in either order with the same result
    exactly when they give the same value to every key they share. *)
Theorem Update_comm_iff (f other : Fields) :
  Update f other = Update other f <->
  forall k v v', f !! k = Some v -> other !! k = Some v' -> v = v'.
Proof.
  split.
  - intros Heq k v v' Hf Ho.
    assert (Update f other !! k = Update other f !! k) as Hk by by rewrite Heq.
    rewrite !Update_lookup, Hf, Ho in Hk. congruence.
  - intros Hagree. apply map_eq. intros k. rewrite !Update_lookup.
    destruct (f !! k) as [v|] eqn:Hf, (other !! k) as [v'|] eqn:Ho; try done.
    by rewrite (Hagree k v v').
Qed.

(** X4. [Keys] lists every key of the map once, and nothing else. *)
Theorem Keys_spec (f : Fields) :
  NoDup (Keys f) /\
  (forall k, k ∈ Keys f <-> is_Some (f !! k)) /\
  length (Keys f) = size f.
Proof.
  unfold Keys.
  apply (map_fold_weak_ind
           (fun (keys : list string) (m : Fields) =>
              NoDup keys /\ (forall k, k ∈ keys <-> is_Some (m !! k)) /\
              length keys = size m)).
  - split; [constructor|]. split; [|by rewrite map_size_empty].
    intros k. rewrite lookup_empty. split.
    + intros H. by apply elem_of_nil in H.
    + by intros [? ?].
  - intros i x m keys Hi (Hnodup & Hin & Hlen). split; [|split].
    + apply NoDup_app. split; [done|]. split; [|apply NoDup_singleton].
      intros k Hk Hk'. apply list_elem_of_singleton in Hk' as ->.
      apply Hin in Hk as [? ?]. congruence.
    + intros k. rewrite elem_of_app, list_elem_of_singleton, Hin.
      destruct (decide (i = k)) as [->|Hne].
      * rewrite lookup_insert_eq. split; [by intros _|by right].
      * rewrite lookup_insert_ne by done. split; [by intros [?|?]|by left].
    + rewrite length_app, Hlen. simpl. rewrite map_size_insert_None by done. lia.
Qed.

Lemma items_strings_Ret (vf : list Fields) (vs : list (gmap string string)) :
  items_strings vf = Ret vs ->
  (fun vsi : gmap string string => VString <$> vsi) <$> vs = vf.
Proof.
  revert vs. induction vf as [|item vf IH]; intros vs; simpl.
  - by intros [= <-].
  - pose proof (item_strings_spec item) as Hitem.
    destruct (item_strings item) as [vsi|]; simpl; [|done].
    destruct (items_strings vf) as [vs'|]; simpl; [|done].
    intros [= <-]. rewrite fmap_cons. by rewrite Hitem, (IH vs').
Qed.

(** X5. What [GetMapSlice] returns is what [GetFieldsSlice] returns, the
    values of the items taken as strings: as many items, with the same
    keys and the same strings. *)
Theorem GetMapSlice_GetFieldsSlice (f : Fields) (key : string)
    (vs : list (gmap string string)) :
  GetMapSlice f key = Ret vs ->
  (fun vsi : gmap string string => VString <$> vsi) <$> vs
    = DocparserGo.GetFieldsSlice f key /\
  length vs = length (DocparserGo.GetFieldsSlice f key).
Proof.
  intros Hvs.
  assert ((fun vsi : gmap string string => VString <$> vsi) <$> vs
          = DocparserGo.GetFieldsSlice f key) as Heq.
  { unfold GetMapSlice, DocparserGo.GetFieldsSlice in *.
    destruct (f !! key) as [[s|vf|t]|]; try by injection Hvs as <-.
    by apply items_strings_Ret. }
  split; [done|]. by rewrite <- Heq, length_fmap.
Qed.

Lemma GetMapSlice_GetFieldsSlice_witness :
  GetMapSlice fields_named "languages" = Ret [item_named] /\
  DocparserGo.GetFieldsSlice fields_named "languages" = [ {[ "name" := VString "Go" ]} ] /\
  length [item_named] = length (DocparserGo.GetFieldsSlice fields_named "languages").
Proof.
  split; [reflexivity|].
  destruct (GetMapSlice_GetFieldsSlice fields_named "languages" [item_named] eq_refl)
    as [Heq Hlen].
  split; [|exact Hlen]. symmetry. exact Heq.
Defined.

(** X6. [GetMapSlice] panics exactly when the value stored for the key is a
    slice of Field Maps one of which holds a value that is not a string; on
    a key that is absent, and on a value that is not a slice of Field Maps,
    it returns the empty slice. *)
Theorem GetMapSlice_Panic_iff (f : Fields) (key : string) :
  (GetMapSlice f key = Panic <->
   exists vf item k v,
     f !! key = Some (VFieldsSlice vf) /\ item ∈ vf /\ item !! k = Some v /\
     forall s, v <> VString s) /\
  (f !! key = None -> GetMapSlice f key = Ret []) /\
  (forall v, f !! key = Some v -> (forall vf, v <> VFieldsSlice vf) ->
             GetMapSlice f key = Ret []).
Proof.
  split; [|split; [apply GetMapSlice_absent|apply GetMapSlice_not_slice]].
  unfold GetMapSlice. destruct (f !! key) as [[s|vf|t]|].
  - split; [done|]. by intros (? & ? & ? & ? & ? & _).
  - rewrite items_strings_Panic. split.
    + intros (item & k & v & Hin & Hk & Hv). by exists vf, item, k, v.
    + intros (vf' & item & k & v & [= <-] & Hin & Hk & Hv). by exists item, k, v.
  - split; [done|]. by intros (? & ? & ? & ? & ? & _).
  - split; [done|]. by intros (? & ? & ? & ? & ? & _).
Qed.

(** X7. The accessors after [Update]: for a key that [other] has, they
    return what they return on [other], also when the receiver held
    a value of the expected type and [other] holds one of another type;
    for a key that [other] lacks, what they return on the receiver. *)
Theorem accessors_Update (f other : Fields) (key : string) :
  match other !! key with
  | Some _ =>
      GetString (Update f other) key = GetString other key /\
      GetMapSlice (Update f other) key = GetMapSlice other key /\
      DocparserGo.GetFieldsSlice (Update f other) key
        = DocparserGo.GetFieldsSlice other key
  | None =>
      GetString (Update f other) key = GetString f key /\
      GetMapSlice (Update f other) key = GetMapSlice f key /\
      DocparserGo.GetFieldsSlice (Update f other) key
        = DocparserGo.GetFieldsSlice f key
  end.
Proof.
  unfold GetString, GetMapSlice, DocparserGo.GetFieldsSlice.
  rewrite Update_lookup. by destruct (other !! key).
Qed.

(** ** [regexGroups] *)

Lemma insert_fold_inv (names ms : list string) (acc : Fields) (k : string) (v : value) :
  foldl (fun acc nm => <[nm.1 := VString nm.2]> acc) acc (zip names ms) !! k = Some v ->
  acc !! k = Some v \/
  exists i s, names !! i = Some k /\ ms !! i = Some s /\ v = VString s.
Proof.
  revert ms acc. induction names as [|n names IH]; intros ms acc; [by left|].
  destruct ms as [|m ms]; [by left|]. simpl. intros Hk.
  destruct (IH _ _ Hk) as [Hacc|(i & s & Hi & Hs & ->)].
  - destruct (decide (n = k)) as [->|Hne].
    + rewrite lookup_insert_eq in Hacc. injection Hacc as <-.
      right. by exists 0, m.
    + rewrite lookup_insert_ne in Hacc by done. by left.
  - right. by exists (S i), s.
Qed.

(** X8. On a compiled expression [regexGroups] does not index out of
    range. It returns whether the expression matches; without a match the
    fields are empty; with one, every field is the name of a capture group
    with the submatch of a group of that name, as a string. *)
Theorem regexGroups_compiled (re : Regexp) (content : string) :
  Regexp_wf re ->
  exists fields : Fields,
    regexGroups re content = Ret (fields, MatchString re content) /\
    (MatchString re content = false -> fields = ∅) /\
    (forall k v, fields !! k = Some v ->
       exists i s, 0 < i /\ SubexpNames re !! i = Some k /\
                   submatches re content !! i = Some s /\ v = VString s).
Proof.
  intros Hwf. destruct (MatchString re content) eqn:Hm.
  - apply MatchString_true in Hm as [ms Hms].
    exists (group_fields (drop 1 (SubexpNames re)) (drop 1 ms)).
    split; [by apply regexGroups_match|]. split; [done|].
    intros k v Hk. unfold group_fields in Hk.
    apply insert_fold_inv in Hk as [Hk|(i & s & Hi & Hs & ->)]; [by rewrite lookup_empty in Hk|].
    rewrite lookup_drop in Hi, Hs. exists (1 + i), s.
    unfold submatches. rewrite Hms. repeat split; [lia|done..].
  - exists ∅. split; [by apply regexGroups_no_match|]. split; [done|].
    intros k v Hk. by rewrite lookup_empty in Hk.
Qed.

Lemma regexGroups_compiled_witness :
  Regexp_wf (re_field "Name " "name") /\
  exists fields : Fields,
    regexGroups (re_field "Name " "name") content_plain = Ret (fields, true) /\
    forall k v, fields !! k = Some v ->
      exists i s, 0 < i /\ SubexpNames (re_field "Name " "name") !! i = Some k /\
                  submatches (re_field "Name " "name") content_plain !! i = Some s /\
                  v = VString s.
Proof.
  split; [apply Regexp_wf_re_field|].
  destruct (regexGroups_compiled (re_field "Name " "name") content_plain
              (Regexp_wf_re_field _ _)) as (fields & Hret & _ & Hfields).
  exists fields. split; [exact Hret|exact Hfields].
Defined.

Lemma regexGroups_loop_strings (ms names : list string) (i : nat) (fields r : Fields) :
  strings_only fields -> regexGroups_loop ms names i fields = Ret r -> strings_only r.
Proof.
  revert i fields. induction names as [|n names IH]; intros i fields Hf; simpl.
  - by intros [= <-].
  - destruct (Nat.eqb i 0); [by apply IH|].
    destruct (index ms i) as [m|]; simpl; [|done].
    apply IH. intros k v Hk. destruct (decide (n = k)) as [->|Hne].
    + rewrite lookup_insert_eq in Hk. injection Hk as <-. by exists m.
    + rewrite lookup_insert_ne in Hk by done. by apply (Hf k).
Qed.

Lemma strings_only_empty : strings_only ∅.
Proof. intros k v Hk. by rewrite lookup_empty in Hk. Qed.

Lemma regexGroups_inv (re : Regexp) (content : string) (fields : Fields) (ok : bool) :
  regexGroups re content = Ret (fields, ok) ->
  strings_only fields /\ ok = MatchString re content.
Proof.
  unfold regexGroups. destruct (MatchString re content); simpl.
  - destruct (regexGroups_loop _ _ 0 ∅) as [r|] eqn:Hloop; simpl; [|done].
    intros [= <- <-]. split; [|done].
    by apply (regexGroups_loop_strings _ _ _ _ _ strings_only_empty Hloop).
  - intros [= <- <-]. split; [apply strings_only_empty|done].
Qed.

(** X9. Whatever [regexGroups] returns, for any record of an expression,
    holds strings only, and its flag is whether the expression matches. *)
Theorem regexGroups_strings (re : Regexp) (content : string) (fields : Fields) (ok : bool) :
  regexGroups re content = Ret (fields, ok) ->
  strings_only fields /\ ok = MatchString re content.
Proof. apply regexGroups_inv. Qed.

Lemma regexGroups_strings_witness :
  regexGroups re_ab "ab" = Ret (<[ "x" := VString "b" ]> {[ "" := VString "a" ]}, true) /\
  strings_only (<[ "x" := VString "b" ]> {[ "" := VString "a" ]}) /\
  true = MatchString re_ab "ab".
Proof.
  split; [reflexivity|].
  exact (regexGroups_strings re_ab "ab" _ true eq_refl).
Defined.

(** X10. A capture group without name is not left out: when a compiled
    expression with such a group matches, [regexGroups] stores a field
    under the empty key. *)
Theorem regexGroups_unnamed (re : Regexp) (content : string) (ms : list string) (i : nat) :
  Regexp_wf re ->
  FindStringSubmatch re content = Some ms ->
  0 < i -> SubexpNames re !! i = Some "" ->
  exists fields : Fields,
    regexGroups re content = Ret (fields, true) /\ is_Some (fields !! "").
Proof.
  intros Hwf Hms Hi Hname.
  exists (group_fields (drop 1 (SubexpNames re)) (drop 1 ms)).
  split; [by apply regexGroups_match|].
  destruct Hwf as [[names Hnames] Hlen]. specialize (Hlen _ _ Hms).
  rewrite Hnames in *. destruct ms as [|m0 ms]; simpl in Hlen; [lia|].
  unfold group_fields. cbn [drop]. rewrite !drop_0.
  apply insert_fold_is_Some; [lia|]. left.
  destruct i as [|i]; [lia|]. apply list_elem_of_lookup. by exists i.
Qed.

Lemma regexGroups_unnamed_witness :
  Regexp_wf re_ab /\
  FindStringSubmatch re_ab "ab" = Some ["ab"; "a"; "b"] /\
  SubexpNames re_ab !! 1 = Some "" /\
  exists fields : Fields,
    regexGroups re_ab "ab" = Ret (fields, true) /\ is_Some (fields !! "").
Proof.
  split; [apply Regexp_wf_re_ab|]. split; [reflexivity|]. split; [reflexivity|].
  exact (regexGroups_unnamed re_ab "ab" ["ab"; "a"; "b"] 1 Regexp_wf_re_ab eq_refl
           (le_n 1) eq_refl).
Defined.

(** ** [PatternGroup] and [PatternList] *)

Section MorePatternProperties.
Context {W : Type}.
Implicit Types (pg : PatternGroup W) (pl : PatternList W) (w : W).

(** X11. A [PatternGroup] fails in one way only: its regex does not match
    and it is not [Optional]. The error is then [NoMatch] with its name and
    the content, the fields are empty, and [Clean] has not run. *)
Theorem PatternGroup_Search_error pg (content : string) w (f : Fields) (e : error) w' :
  PatternGroup_Search pg content w = (Ret (f, Some e), w') ->
  f = ∅ /\ e = NoMatch (pg_Name pg) content /\ w' = w /\
  pg_Optional pg = false /\ MatchString (pg_Regex pg) content = false.
Proof.
  unfold PatternGroup_Search, lift, mbind, M_bind.
  destruct (regexGroups (pg_Regex pg) content) as [[fields ok]|] eqn:Hgroups; [|done].
  apply regexGroups_inv in Hgroups as [_ ->].
  destruct (MatchString (pg_Regex pg) content); simpl.
  - by destruct (apply_clean (pg_Clean pg) fields w) as [[g|] w1].
  - destruct (pg_Optional pg); [done|]. by intros [= <- <- <-].
Qed.

Lemma PatternList_items_error pl (texts : list string) :
  forall i items w (e : error) w',
    PatternList_items pl texts i items w = (Ret (inr e), w') ->
    exists j t,
      texts !! j = Some t /\ t <> "" /\ MatchString (pl_ItemRegex pl) t = false /\
      e = NoMatch (pl_Name pl +:+ " - item " +:+ itoa (i + j)) t.
Proof.
  induction texts as [|t texts IH]; intros i items w e w'; [done|].
  cbn [PatternList_items]. destruct (String.eqb_spec t "") as [->|Hne].
  - intros Hrest. destruct (IH _ _ _ _ _ Hrest) as (j & t' & Hj & Ht' & Hm & ->).
    exists (S j), t'. by rewrite Nat.add_succ_r.
  - unfold lift, mbind, M_bind.
    destruct (regexGroups (pl_ItemRegex pl) t) as [[fields ok]|] eqn:Hgroups; [|done].
    apply regexGroups_inv in Hgroups as [_ ->].
    destruct (MatchString (pl_ItemRegex pl) t) eqn:Hm; simpl.
    + destruct (apply_clean (pl_CleanItem pl) fields w) as [[g|] w1]; [|done].
      intros Hrest. destruct (IH _ _ _ _ _ Hrest) as (j & t' & Hj & Ht' & Hm' & ->).
      exists (S j), t'. by rewrite Nat.add_succ_r.
    + intros [= <- <-]. exists 0, t. by rewrite Nat.add_0_r.
Qed.

(** X12. A [PatternList] fails in two ways only, with empty fields and a
    [NoMatch] both times: the list regex does not match and the list is not
    [Optional], the content being that of the error; or a text of the
    split, not empty, does not match the item regex, the error having the
    index of that text in the split and the text. *)
Theorem PatternList_Search_error pl (content : string) w (f : Fields) (e : error) w' :
  PatternList_Search pl content w = (Ret (f, Some e), w') ->
  f = ∅ /\
  ((MatchString (pl_ListRegex pl) content = false /\ pl_Optional pl = false /\ w' = w /\
    e = NoMatch (pl_Name pl +:+ " - list regex") content) \/
   (MatchString (pl_ListRegex pl) content = true /\
    exists listText j t,
      submatches (pl_ListRegex pl) content !! 1 = Some listText /\
      Split (pl_SplitRegex pl) listText !! j = Some t /\
      t <> "" /\ MatchString (pl_ItemRegex pl) t = false /\
      e = NoMatch (pl_Name pl +:+ " - item " +:+ itoa j) t)).
Proof.
  unfold PatternList_Search. destruct (MatchString (pl_ListRegex pl) content); simpl.
  - unfold lift, mbind, M_bind, index.
    destruct (SubexpNames (pl_ListRegex pl) !! 1) as [listName|]; [|done].
    destruct (submatches (pl_ListRegex pl) content !! 1) as [listText|]; [|done].
    destruct (PatternList_items pl _ 0 [] w) as [[[items|err]|] w1] eqn:Hitems; [done| |done].
    intros [= <- <- <-]. split; [done|]. right. split; [done|].
    destruct (PatternList_items_error _ _ _ _ _ _ _ Hitems) as (j & t & Hj & Ht & Hm & ->).
    by exists listText, j, t.
  - destruct (pl_Optional pl); [done|]. intros [= <- <- <-]. split; [done|]. by left.
Qed.

Lemma PatternList_items_strings pl (texts : list string) :
  pl_CleanItem pl = None ->
  forall i items w (fs : list Fields) w',
    PatternList_items pl texts i items w = (Ret (inl fs), w') ->
    w' = w /\ exists new, fs = items ++ new /\ Forall strings_only new /\
                          length new <= length texts.
Proof.
  intros Hnone. induction texts as [|t texts IH]; intros i items w fs w'.
  - simpl. intros [= <- <-]. split; [done|]. exists []. by rewrite app_nil_r.
  - cbn [PatternList_items]. destruct (String.eqb t "").
    + intros Hrest. destruct (IH _ _ _ _ _ Hrest) as (-> & new & -> & Hnew & Hlen).
      split; [done|]. exists new. repeat split; [done|simpl; lia].
    + unfold lift, mbind, M_bind.
      destruct (regexGroups (pl_ItemRegex pl) t) as [[fields ok]|] eqn:Hgroups; [|done].
      apply regexGroups_inv in Hgroups as [Hfields _].
      destruct ok; simpl; [|done]. rewrite Hnone. simpl.
      intros Hrest. destruct (IH _ _ _ _ _ Hrest) as (-> & new & -> & Hnew & Hlen).
      split; [done|]. exists (fields :: new). rewrite <- app_assoc.
      repeat split; [by constructor|simpl; lia].
Qed.

Lemma PatternList_items_state pl (texts : list string) :
  pl_CleanItem pl = None ->
  forall i items w, (PatternList_items pl texts i items w).2 = w.
Proof.
  intros Hnone. induction texts as [|t texts IH]; intros i items w; [done|].
  cbn [PatternList_items]. destruct (String.eqb t ""); [apply IH|].
  unfold lift, mbind, M_bind.
  destruct (regexGroups (pl_ItemRegex pl) t) as [[fields ok]|]; [|done].
  destruct ok; simpl; [|done]. rewrite Hnone. simpl. apply IH.
Qed.

(** X13. The fields a [PatternList] without [CleanItem] returns can be read
    with [GetMapSlice] under any key: it does not panic, and returns the
    items as [GetFieldsSlice] does. The state of the caller is untouched. *)
Theorem PatternList_Search_GetMapSlice pl (content : string) w
    (f : Fields) (err : option error) w' (key : string) :
  pl_CleanItem pl = None ->
  PatternList_Search pl content w = (Ret (f, err), w') ->
  w' = w /\
  exists vs : list (gmap string string),
    GetMapSlice f key = Ret vs /\
    (fun vsi : gmap string string => VString <$> vsi) <$> vs
      = DocparserGo.GetFieldsSlice f key.
Proof.
  intros Hnone.
  assert (exists vs : list (gmap string string),
            GetMapSlice ∅ key = Ret vs /\
            (fun vsi : gmap string string => VString <$> vsi) <$> vs
              = DocparserGo.GetFieldsSlice ∅ key) as Hempty.
  { exists []. unfold GetMapSlice, DocparserGo.GetFieldsSlice. by rewrite lookup_empty. }
  unfold PatternList_Search.
  destruct (MatchString (pl_ListRegex pl) content); simpl.
  - unfold lift, mbind, M_bind, index.
    destruct (SubexpNames (pl_ListRegex pl) !! 1) as [listName|]; [|done].
    destruct (submatches (pl_ListRegex pl) content !! 1) as [listText|]; [|done].
    destruct (PatternList_items pl _ 0 [] w) as [[[items|e]|] w1] eqn:Hitems; [| |done].
    + destruct (PatternList_items_strings _ _ Hnone _ _ _ _ _ Hitems)
        as (-> & new & -> & Hnew & _).
      intros [= <- <- <-]. split; [done|]. simpl.
      unfold GetMapSlice, DocparserGo.GetFieldsSlice.
      destruct (decide (listName = key)) as [->|Hne].
      * rewrite lookup_singleton_eq.
        destruct (items_strings new) as [vs|] eqn:Hvs.
        -- exists vs. split; [done|]. by apply items_strings_Ret.
        -- apply items_strings_Panic in Hvs as (item & k & v & Hin & Hk & Hv).
           rewrite Forall_forall in Hnew.
           destruct (Hnew item Hin k v Hk) as [s ->]. by destruct (Hv s).
      * rewrite lookup_singleton_ne by done. by exists [].
    + pose proof (PatternList_items_state pl (Split (pl_SplitRegex pl) listText)
                    Hnone 0 [] w) as Hstate.
      rewrite Hitems in Hstate. simpl in Hstate. subst w1.
      by intros [= <- <- <-].
  - by destruct (pl_Optional pl); intros [= <- <- <-].
Qed.

Lemma PatternList_items_of_go (pl : DocparserGo.PatternList) (texts : list string) :
  forall i items w,
    PatternList_items (W:=W) (PatternList_of_go pl) texts i items w
      = (DocparserGo.PatternList_items pl texts i items, w).
Proof.
  induction texts as [|t texts IH]; intros i items w; [done|].
  cbn [PatternList_items DocparserGo.PatternList_items].
  destruct (String.eqb t ""); [apply IH|].
  unfold lift, mbind at 1 2, M_bind. simpl.
  destruct (regexGroups (DocparserGo.pl_ItemRegex pl) t) as [[fields ok]|]; simpl; [|done].
  destruct ok; simpl; [|done]. apply IH.
Qed.

(** X14. A [PatternList] of [src/Makefile] that has no [CleanItem] and is
    not [Optional] returns what the [PatternList] of [src/docparser.go]
    with the same regexes returns, panics included, and leaves the state
    of the caller as it is. *)
Theorem PatternList_Search_of_go (pl : DocparserGo.PatternList) (content : string) w :
  PatternList_Search (PatternList_of_go pl) content w
    = (DocparserGo.PatternList_Search pl content, w).
Proof.
  unfold PatternList_Search, DocparserGo.PatternList_Search. simpl.
  destruct (MatchString (DocparserGo.pl_ListRegex pl) content); simpl; [|done].
  unfold lift, mbind at 1 2 3, M_bind.
  destruct (index (SubexpNames (DocparserGo.pl_ListRegex pl)) 1) as [listName|]; simpl; [|done].
  destruct (index (submatches (DocparserGo.pl_ListRegex pl) content) 1) as [listText|];
    simpl; [|done].
  rewrite PatternList_items_of_go.
  by destruct (DocparserGo.PatternList_items pl _ 0 []) as [[items|e]|].
Qed.

End MorePatternProperties.

Lemma PatternGroup_Search_error_witness :
  PatternGroup_Search (group_line "Name" "Name: " "name" (Some clean_count) false)
    content_no_match 7
    = (Ret (∅, Some (NoMatch "Name" content_no_match)), 7) /\
  MatchString (re_field "Name: " "name") content_no_match = false.
Proof.
  split; [reflexivity|].
  exact (proj2 (proj2 (proj2 (proj2
           (PatternGroup_Search_error
              (group_line "Name" "Name: " "name" (Some clean_count) false)
              content_no_match 7 ∅ (NoMatch "Name" content_no_match) 7 eq_refl))))).
Defined.

Lemma PatternList_Search_error_witness :
  PatternList_Search (list_items true) content_bad tt
    = (Ret (∅, Some (NoMatch "Items - item 1" "bad")), tt) /\
  exists listText j t,
    submatches (re_rest ("Items:" +:+ LF) "items") content_bad !! 1 = Some listText /\
    Split re_LF listText !! j = Some t /\
    t <> "" /\ MatchString (re_line "- " "v") t = false /\
    NoMatch "Items - item 1" "bad" = NoMatch ("Items" +:+ " - item " +:+ itoa j) t.
Proof.
  split; [reflexivity|].
  destruct (PatternList_Search_error (list_items true) content_bad tt ∅
              (NoMatch "Items - item 1" "bad") tt eq_refl)
    as [_ [(Hm & _)|(_ & Hex)]].
  - discriminate Hm.
  - exact Hex.
Defined.

Lemma PatternList_Search_GetMapSlice_witness :
  PatternList_Search (list_items false) content_items tt
    = (Ret ({[ "items" := VFieldsSlice [ {[ "v" := VString "a" ]};
                                         {[ "v" := VString "b" ]};
                                         {[ "v" := VString "c" ]} ] ]}, None), tt) /\
  exists vs : list (gmap string string),
    GetMapSlice {[ "items" := VFieldsSlice [ {[ "v" := VString "a" ]};
                                             {[ "v" := VString "b" ]};
                                             {[ "v" := VString "c" ]} ] ]} "items" = Ret vs /\
    length vs = 3.
Proof.
  split; [reflexivity|].
  destruct (PatternList_Search_GetMapSlice (list_items false) content_items tt _ None tt
              "items" eq_refl eq_refl) as (_ & vs & Hvs & Heq).
  exists vs. split; [exact Hvs|].
  rewrite <- (length_fmap (fun vsi : gmap string string => VString <$> vsi)), Heq.
  reflexivity.
Defined.

(** ** [Document], [Documents] and [ErrorList] *)

Section MoreDocumentProperties.
Context {W : Type}.
Variable Quote : string -> string.
Implicit Types (d : list (Pattern W)) (w : W).

Lemma Document_loop_app d1 d2 (content : string) (f : Fields) w :
  Document_loop (d1 ++ d2) content f w =
    match Document_loop d1 content f w with
    | (Ret (g, None), w1) => Document_loop d2 content g w1
    | r => r
    end.
Proof.
  revert f w. induction d1 as [|p d1 IH]; intros f w; [done|].
  cbn [app Document_loop]. unfold mbind, M_bind.
  destruct (Search p content w) as [[[pf [e|]]|] w1]; simpl; [done| |done].
  apply IH.
Qed.

Lemma Document_loop_Update d (content : string) (f a : Fields) w :
  Document_loop d content (Update f a) w =
    match Document_loop d content a w with
    | (Ret (g, None), w1) => (Ret (Update f g, None), w1)
    | r => r
    end.
Proof.
  revert a w. induction d as [|p d IH]; intros a w; [done|].
  cbn [Document_loop]. unfold mbind, M_bind.
  destruct (Search p content w) as [[[pf [e|]]|] w1]; simpl; [done| |done].
  rewrite <- IH. f_equal.
  apply map_eq. intros k. rewrite !Update_lookup. by destruct (pf !! k), (a !! k).
Qed.

Lemma Document_loop_error d (content : string) :
  forall (f : Fields) w (g : Fields) (e : error) w',
    Document_loop d content f w = (Ret (g, Some e), w') ->
    g = ∅ /\ exists p pf w0, p ∈ d /\ Search p content w0 = (Ret (pf, Some e), w').
Proof.
  induction d as [|p d IH]; intros f w g e w'; [done|].
  cbn [Document_loop]. unfold mbind, M_bind.
  destruct (Search p content w) as [[[pf [e'|]]|] w1] eqn:Hp; simpl; [| |done].
  - intros [= <- <- <-]. split; [done|]. exists p, pf, w.
    split; [by apply elem_of_cons; left|done].
  - intros Hrest. destruct (IH _ _ _ _ _ Hrest) as (-> & p' & pf' & w0 & Hin & Hp').
    split; [done|]. exists p', pf', w0. split; [by apply elem_of_cons; right|done].
Qed.

(** X15. Searching the patterns [d1] and then [d2] in one document is
    searching the document [d1] and, when it succeeds, the document [d2]
    in the state the first left, and merging the fields of the second into
    those of the first; a failure or a panic of either is the result. *)
Theorem Document_Search_app (d1 d2 : Document W) (content : string) w :
  Document_Search (d1 ++ d2) content w =
    match Document_Search d1 content w with
    | (Ret (f1, None), w1) =>
        match Document_Search d2 content w1 with
        | (Ret (f2, None), w2) => (Ret (Update f1 f2, None), w2)
        | r => r
        end
    | r => r
    end.
Proof.
  unfold Document_Search. rewrite Document_loop_app.
  destruct (Document_loop d1 content ∅ w) as [[[f1 [e|]]|] w1]; [done| |done].
  replace (Document_loop d2 content f1 w1)
    with (Document_loop d2 content (Update f1 ∅) w1) by (by rewrite Update_empty_r).
  apply Document_loop_Update.
Qed.

(** X16. A document that is a child of a document can be replaced by its
    own children, in its place: [Search] returns the same, whatever the
    children do. *)
Theorem Document_Search_flatten (pre d rest : Document W) (content : string) w :
  Document_Search (pre ++ DocumentPattern d :: rest) content w
    = Document_Search (pre ++ d ++ rest) content w.
Proof.
  unfold Document_Search. rewrite !Document_loop_app.
  destruct (Document_loop pre content ∅ w) as [[[f [e|]]|] w1]; [done| |done].
  cbn [Document_loop]. unfold mbind, M_bind. cbn [Search DocumentPattern].
  unfold Document_Search. rewrite Document_loop_app.
  replace (Document_loop d content f w1)
    with (Document_loop d content (Update f ∅) w1) by (by rewrite Update_empty_r).
  rewrite Document_loop_Update.
  destruct (Document_loop d content ∅ w1) as [[[g [e|]]|] w2] eqn:Hd; simpl; [|done..].
  by apply Document_loop_error in Hd as [-> _].
Qed.

(** X17. When [Document.Search] returns an error, the fields are empty and
    the error is the one a child returned, as it is. *)
Theorem Document_Search_error (d : Document W) (content : string) w
    (f : Fields) (e : error) w' :
  Document_Search d content w = (Ret (f, Some e), w') ->
  f = ∅ /\ exists p pf w0, p ∈ d /\ Search p content w0 = (Ret (pf, Some e), w').
Proof. apply Document_loop_error. Qed.

(** X18. A pattern that is [Optional] and does not match the content can
    be taken out of a document: [Search] returns the same without it. *)
Theorem Document_Search_optional (pre rest : Document W) (pg : PatternGroup W)
    (pl : PatternList W) (content : string) w :
  pg_Optional pg = true -> MatchString (pg_Regex pg) content = false ->
  pl_Optional pl = true -> MatchString (pl_ListRegex pl) content = false ->
  Document_Search (pre ++ GroupPattern pg :: rest) content w
    = Document_Search (pre ++ rest) content w /\
  Document_Search (pre ++ ListPattern pl :: rest) content w
    = Document_Search (pre ++ rest) content w.
Proof.
  intros Hpg Hpgm Hpl Hplm. unfold Document_Search. rewrite !Document_loop_app.
  destruct (Document_loop pre content ∅ w) as [[[f [e|]]|] w1]; [done| |done].
  cbn [Document_loop Search GroupPattern ListPattern]. split.
  - unfold PatternGroup_Search, lift, mbind, M_bind.
    rewrite (regexGroups_no_match _ _ Hpgm). simpl. rewrite Hpg. simpl.
    by rewrite Update_empty_r.
  - unfold PatternList_Search, mbind, M_bind. rewrite Hplm, Hpl. simpl.
    by rewrite Update_empty_r.
Qed.

Lemma last_value_is_Some (fs : list Fields) (k : string) :
  is_Some (last_value k fs) <-> exists g, g ∈ fs /\ is_Some (g !! k).
Proof.
  induction fs as [|g fs IH]; simpl.
  - split; [by intros [? ?]|]. intros (g & Hin & _). by apply elem_of_nil in Hin.
  - destruct (last_value k fs) as [v|]; split.
    + intros _. destruct IH as [IH _]. destruct (IH (mk_is_Some _ _ eq_refl)) as (g' & Hin & Hk).
      exists g'. split; [by apply elem_of_cons; right|done].
    + by intros _.
    + intros Hg. exists g. split; [by apply elem_of_cons; left|done].
    + intros (g' & Hin & Hk). apply elem_of_cons in Hin as [->|Hin]; [done|].
      destruct IH as [_ IH]. by destruct (IH (ex_intro _ g' (conj Hin Hk))) as [? ?].
Qed.

(** X19. When every child of a document succeeds, the keys of the fields
    [Search] returns are the keys of the fields of the children: none is
    lost and none is added. *)
Theorem Document_Search_keys (d : Document W) (content : string) w
    (fs : list Fields) w' :
  children_run d content w fs None w' ->
  exists f : Fields,
    Document_Search d content w = (Ret (f, None), w') /\
    forall k, is_Some (f !! k) <-> exists g, g ∈ fs /\ is_Some (g !! k).
Proof.
  intros Hrun. exists (foldl Update ∅ fs). split.
  - unfold Document_Search. by rewrite (Document_loop_spec _ _ _ _ _ _ Hrun).
  - intros k. rewrite foldl_Update_lookup, lookup_empty, <- last_value_is_Some.
    by destruct (last_value k fs).
Qed.

Lemma Documents_loop_error (ds : list (Document W)) (content : string) :
  forall i errList w (f : Fields) (e : error) w',
    Documents_loop Quote ds content i errList w = (Ret (f, Some e), w') ->
    f = ∅ /\
    exists msgs, e = ErrorList (errList ++ (errorString <$> msgs)) /\
                 length msgs = length ds.
Proof.
  induction ds as [|doc ds IH]; intros i errList w f e w'.
  - simpl. intros [= <- <- <-]. split; [done|]. exists []. by rewrite app_nil_r.
  - cbn [Documents_loop]. unfold mbind, M_bind.
    destruct (Document_Search doc content w) as [[[g [e'|]]|] w1]; simpl; [|done..].
    intros Hrest. destruct (IH _ _ _ _ _ _ Hrest) as (-> & msgs & -> & Hlen).
    split; [done|].
    exists (("Document " +:+ itoa i +:+ ": " +:+ Error Quote e') :: msgs).
    rewrite <- app_assoc. split; [done|]. simpl. by rewrite Hlen.
Qed.

(** X20. When [Documents.Search] returns an error, the fields are empty and
    the error is an [ErrorList] of messages, one for each document: it
    returns an error only when every document has failed. *)
Theorem Documents_Search_error (ds : Documents W) (content : string) w
    (f : Fields) (e : error) w' :
  Documents_Search Quote ds content w = (Ret (f, Some e), w') ->
  f = ∅ /\
  exists msgs, e = ErrorList (errorString <$> msgs) /\ length msgs = length ds.
Proof. apply Documents_loop_error. Qed.

Lemma Documents_loop_success (ds : list (Document W)) (content : string) :
  forall i errList w (f : Fields) w',
    Documents_loop Quote ds content i errList w = (Ret (f, None), w') ->
    exists doc w0, doc ∈ ds /\ Document_Search doc content w0 = (Ret (f, None), w').
Proof.
  induction ds as [|doc ds IH]; intros i errList w f w'; [done|].
  cbn [Documents_loop]. unfold mbind, M_bind.
  destruct (Document_Search doc content w) as [[[g [e|]]|] w1] eqn:Hdoc; simpl; [| |done].
  - intros Hrest. destruct (IH _ _ _ _ _ Hrest) as (doc' & w0 & Hin & Hdoc').
    exists doc', w0. split; [by apply elem_of_cons; right|done].
  - intros [= <- <-]. exists doc, w. split; [by apply elem_of_cons; left|done].
Qed.

(** X21. When [Documents.Search] returns no error, the fields are those a
    document of the set returned with no error: it makes up no fields, and
    there is no success without a document. *)
Theorem Documents_Search_success (ds : Documents W) (content : string) w
    (f : Fields) w' :
  Documents_Search Quote ds content w = (Ret (f, None), w') ->
  ds <> [] /\
  exists doc w0, doc ∈ ds /\ Document_Search doc content w0 = (Ret (f, None), w').
Proof.
  intros Hsearch. split; [by intros ->|].
  by apply (Documents_loop_success _ _ _ _ _ _ _ Hsearch).
Qed.

Lemma append_assoc (a b c : string) : (a +:+ b) +:+ c = a +:+ b +:+ c.
Proof.
  induction a as [|ch a IH]; [done|].
  change (String ch ((a +:+ b) +:+ c) = String ch (a +:+ b +:+ c)). by f_equal.
Qed.

Lemma Join_snoc (msgs : list string) (m : string) :
  Join (msgs ++ [m]) "; " =
    match msgs with
    | [] => m
    | _ :: _ => Join msgs "; " +:+ "; " +:+ m
    end.
Proof.
  unfold Join. induction msgs as [|m0 msgs IH]; [done|].
  cbn [app]. destruct msgs as [|m1 msgs]; [done|].
  change (String.concat "; " (m0 :: (m1 :: msgs) ++ [m]))
    with (m0 +:+ "; " +:+ String.concat "; " ((m1 :: msgs) ++ [m])).
  rewrite IH.
  change (String.concat "; " (m0 :: m1 :: msgs))
    with (m0 +:+ "; " +:+ String.concat "; " (m1 :: msgs)).
  by rewrite !append_assoc.
Qed.

(** X22. The message of an [ErrorList] after [Add]: the message of the
    error added when the list was empty, and otherwise the message the
    list had, [; ] and the message of the error added. The message of the
    empty list is empty. *)
Theorem ErrorList_Add_Error (el : list error) (err : error) :
  Error Quote (ErrorList (ErrorList_Add el err)) =
    match el with
    | [] => Error Quote err
    | _ :: _ => Error Quote (ErrorList el) +:+ "; " +:+ Error Quote err
    end /\
  Error Quote (ErrorList []) = "".
Proof.
  split; [|done]. unfold ErrorList_Add. cbn [Error].
  rewrite map_app. cbn [map]. rewrite Join_snoc. by destruct el.
Qed.

End MoreDocumentProperties.

(** ** Instances of the properties above *)

Lemma Document_Search_error_witness :
  Document_Search document_names ("Name: bob" +:+ LF) tt
    = (Ret (∅, Some (NoMatch "Other name" ("Name: bob" +:+ LF))), tt) /\
  exists (p : Pattern unit) pf w0,
    p ∈ document_names /\
    Search p ("Name: bob" +:+ LF) w0
      = (Ret (pf, Some (NoMatch "Other name" ("Name: bob" +:+ LF))), tt).
Proof.
  split; [reflexivity|].
  exact (proj2 (Document_Search_error document_names ("Name: bob" +:+ LF) tt ∅
                  (NoMatch "Other name" ("Name: bob" +:+ LF)) tt eq_refl)).
Defined.

Lemma Document_Search_optional_witness :
  MatchString (re_field "Email: " "email") content_names = false /\
  MatchString (re_rest ("Items:" +:+ LF) "items") content_names = false /\
  Document_Search document_nested content_names tt
    = Document_Search [DocumentPattern document_names] content_names tt /\
  Document_Search [DocumentPattern document_names; ListPattern (list_items true)]
    content_names tt
    = Document_Search [DocumentPattern document_names] content_names tt.
Proof.
  split; [reflexivity|]. split; [reflexivity|].
  exact (Document_Search_optional [DocumentPattern document_names] []
           (group_line "Email" "Email: " "email" None true) (list_items true)
           content_names tt eq_refl eq_refl eq_refl eq_refl).
Defined.

Lemma Document_Search_keys_witness :
  children_run document_names content_names tt
    [ {[ "name" := VString "bob" ]}; {[ "name" := VString "josh" ]} ] None tt /\
  exists f : Fields,
    Document_Search document_names content_names tt = (Ret (f, None), tt) /\
    is_Some (f !! "name") /\ ~ is_Some (f !! "email").
Proof.
  assert (children_run document_names content_names tt
            [ {[ "name" := VString "bob" ]}; {[ "name" := VString "josh" ]} ] None tt)
    as Hrun.
  { eapply children_ok; [reflexivity|]. eapply children_ok; [reflexivity|]. constructor. }
  split; [exact Hrun|].
  destruct (Document_Search_keys document_names content_names tt _ tt Hrun)
    as (f & Hsearch & Hkeys).
  exists f. split; [exact Hsearch|]. split.
  - apply Hkeys. exists {[ "name" := VString "bob" ]}.
    split; [apply list_elem_of_here|]. by eexists.
  - intros Hemail. apply Hkeys in Hemail as (g & Hin & Hg).
    apply elem_of_cons in Hin as [->|Hin]; [by destruct Hg|].
    apply elem_of_cons in Hin as [->|Hin]; [by destruct Hg|].
    by apply elem_of_nil in Hin.
Defined.

Lemma Documents_Search_error_witness :
  Documents_Search quote_plain documents_name content_no_match tt
    = (Ret (∅, Some (ErrorList
                       [errorString ("Document 0: No match for " +:+ DQ +:+ "Name" +:+ DQ);
                        errorString ("Document 1: No match for " +:+ DQ +:+ "Name" +:+ DQ)])),
       tt) /\
  exists msgs : list string,
    ErrorList [errorString ("Document 0: No match for " +:+ DQ +:+ "Name" +:+ DQ);
               errorString ("Document 1: No match for " +:+ DQ +:+ "Name" +:+ DQ)]
      = ErrorList (errorString <$> msgs) /\
    length msgs = length documents_name.
Proof.
  split; [reflexivity|].
  exact (proj2 (Documents_Search_error quote_plain documents_name content_no_match tt ∅
                  _ tt eq_refl)).
Defined.

Lemma Documents_Search_success_witness :
  Documents_Search quote_plain documents_name content_josh tt
    = (Ret (fields_josh, None), tt) /\
  exists (doc : Document unit) w0,
    doc ∈ documents_name /\
    Document_Search doc content_josh w0 = (Ret (fields_josh, None), tt).
Proof.
  split; [reflexivity|].
  exact (proj2 (Documents_Search_success quote_plain documents_name content_josh tt
                  fields_josh tt eq_refl)).
Defined.

(** ** Searching twice through the pointer *)

Section PointerReceivers.
Context {W : Type}.

(** [Search] on a [*PatternGroup] does not assign to the struct, and
    returns what [PatternGroup_Search] returns on its fields. *)
Lemma PatternGroup_Search_ptr_run (pg : PatternGroup W) (content : string) (w : W) :
  PatternGroup_Search_ptr content (pg, w) =
    ((PatternGroup_Search pg content w).1, (pg, (PatternGroup_Search pg content w).2)).
Proof.
  unfold PatternGroup_Search_ptr, PatternGroup_Search, read, call, lift, mbind, M_bind.
  cbn [fst snd].
  destruct (regexGroups (pg_Regex pg) content) as [[fields ok]|]; [|done].
  destruct ok; simpl.
  - by destruct (apply_clean (pg_Clean pg) fields w) as [[g|] w1].
  - by destruct (pg_Optional pg).
Qed.

Lemma PatternList_items_ptr_run (pl : PatternList W) (texts : list string) :
  forall i items w,
    PatternList_items_ptr texts i items (pl, w) =
      ((PatternList_items pl texts i items w).1,
       (pl, (PatternList_items pl texts i items w).2)).
Proof.
  induction texts as [|t texts IH]; intros i items w; [done|].
  cbn [PatternList_items_ptr PatternList_items]. destruct (String.eqb t ""); [apply IH|].
  unfold read, call, lift, mbind, M_bind. cbn [fst snd].
  destruct (regexGroups (pl_ItemRegex pl) t) as [[fields ok]|]; [|done].
  destruct ok; simpl; [|done].
  destruct (apply_clean (pl_CleanItem pl) fields w) as [[g|] w1]; [|done].
  apply IH.
Qed.

(** [Search] on a [*PatternList] does not assign to the struct, and returns
    what [PatternList_Search] returns on its fields. *)
Lemma PatternList_Search_ptr_run (pl : PatternList W) (content : string) (w : W) :
  PatternList_Search_ptr content (pl, w) =
    ((PatternList_Search pl content w).1, (pl, (PatternList_Search pl content w).2)).
Proof.
  unfold PatternList_Search_ptr, PatternList_Search, read, lift, mbind, M_bind.
  cbn [fst snd].
  destruct (MatchString (pl_ListRegex pl) content); simpl.
  - destruct (index (SubexpNames (pl_ListRegex pl)) 1) as [listName|]; [|done].
    destruct (index (submatches (pl_ListRegex pl) content) 1) as [listText|]; [|done].
    simpl. rewrite PatternList_items_ptr_run.
    by destruct (PatternList_items pl _ 0 [] w) as [[[items|err]|] w1].
  - by destruct (pl_Optional pl).
Qed.

(** C9. [Search] reads the struct its receiver points to and does not
    assign to it: after a call the struct is the one before the call,
    whatever the call returned. When [Clean] and [CleanItem] are absent or
    deterministic, a second [Search] of the same content, run in the store
    the first left (the struct, and the state of the caller as the first
    call changed it), returns what the first returned. *)
Theorem Search_ptr_twice (pg : PatternGroup W) (pl : PatternList W) (content : string)
    (w : W) :
  deterministic (pg_Clean pg) ->
  deterministic (pl_CleanItem pl) ->
  ((PatternGroup_Search_ptr content (pg, w)).2.1 = pg /\
   (PatternGroup_Search_ptr content (PatternGroup_Search_ptr content (pg, w)).2).1
     = (PatternGroup_Search_ptr content (pg, w)).1) /\
  ((PatternList_Search_ptr content (pl, w)).2.1 = pl /\
   (PatternList_Search_ptr content (PatternList_Search_ptr content (pl, w)).2).1
     = (PatternList_Search_ptr content (pl, w)).1).
Proof.
  intros Hpg Hpl. split.
  - rewrite !PatternGroup_Search_ptr_run. cbn [fst snd].
    rewrite PatternGroup_Search_ptr_run. cbn [fst snd].
    split; [done|]. by apply PatternGroup_Search_deterministic.
  - rewrite !PatternList_Search_ptr_run. cbn [fst snd].
    rewrite PatternList_Search_ptr_run. cbn [fst snd].
    split; [done|]. by apply PatternList_Search_deterministic.
Qed.

End PointerReceivers.

(** C9 on a group and a list whose [Clean] and [CleanItem] count their
    calls: the second call runs in another state than the first, 1 for the
    group and 3 for the list, and returns the same. *)
Lemma Search_ptr_twice_witness :
  deterministic (Some clean_counted) /\
  PatternGroup_Search_ptr content_plain
    (group_line "Name" "Name " "name" (Some clean_counted) false, 0)
    = (Ret ({[ "name" := VString "Igor Sobreira" ]}, None),
       (group_line "Name" "Name " "name" (Some clean_counted) false, 1)) /\
  (PatternGroup_Search_ptr content_plain
     (group_line "Name" "Name " "name" (Some clean_counted) false, 1)).1
    = Ret ({[ "name" := VString "Igor Sobreira" ]}, None) /\
  (PatternList_Search_ptr content_items
     (list_lines "Items" (re_rest ("Items:" +:+ LF) "items") (Some clean_counted) false, 0)).2
    = (list_lines "Items" (re_rest ("Items:" +:+ LF) "items") (Some clean_counted) false, 3) /\
  (PatternList_Search_ptr content_items
     (list_lines "Items" (re_rest ("Items:" +:+ LF) "items") (Some clean_counted) false, 3)).1
    = (PatternList_Search_ptr content_items
         (list_lines "Items" (re_rest ("Items:" +:+ LF) "items") (Some clean_counted) false,
          0)).1.
Proof.
  assert (deterministic (Some clean_counted)) as Hclean by (intros f w w'; reflexivity).
  split; [exact Hclean|]. split; [reflexivity|]. split.
  - exact (proj2 (proj1 (Search_ptr_twice
             (group_line "Name" "Name " "name" (Some clean_counted) false)
             (list_lines "Items" (re_rest ("Items:" +:+ LF) "items") (Some clean_counted) false)
             content_plain 0 Hclean Hclean))).
  - split; [reflexivity|].
    exact (proj2 (proj2 (Search_ptr_twice
             (group_line "Name" "Name " "name" (Some clean_counted) false)
             (list_lines "Items" (re_rest ("Items:" +:+ LF) "items") (Some clean_counted) false)
             content_items 0 Hclean Hclean))).
Defined.

(** The store matters: were the struct assigned to after a [Search], as by
    [pg.Optional = true], the second [Search] would return another result
    than the first. *)
Lemma Search_ptr_after_assign :
  (PatternGroup_Search_ptr content_no_match
     (group_line "Name" "Name: " "name" None false, tt)).1
    = Ret (∅, Some (NoMatch "Name" content_no_match)) /\
  ((_ ← assign set_Optional; PatternGroup_Search_ptr content_no_match)
     (PatternGroup_Search_ptr content_no_match
        (group_line "Name" "Name: " "name" None false, tt)).2).1
    = Ret (∅, None).
Proof. split; reflexivity. Qed.
